(** * SmartCart: cart store, comparison engine and share text

    Shallow embedding of the cart logic of [src/components/CartItemRow.tsx]
    (the [App] component: totals, [comparisonGroups], [bestValueIds],
    [handleFileChange], [handleAddManualItem], [handleUpdateItem],
    [handleRemoveItem], [handleShareList]; the row component: [handleIncrement],
    [handleDecrement]).

    Modelling choices.
    - JS numbers that hold money or measures are modelled as rationals [Q]
      (IEEE rounding is not modelled); quantities are integers [Z].
    - Strings are [string] (bytes); [toLowerCase] and [trim] are modelled on
      ASCII letters and ASCII white space.
    - A [Record<string, CartItem[]>] is an association list in key insertion
      order.
    - [Array.prototype.sort] is stable; every stable sort returns the same
      array for a consistent comparator, so it is modelled by a stable
      insertion sort on the comparator's key. *)

From Stdlib Require Import List String Ascii Bool ZArith QArith Lia.
From Stdlib Require Import Sorted Permutation Qround Qabs.
From Stdlib Require Qcanon.
Import ListNotations.

Open Scope string_scope.

(** ** Data model ([src/types] part of the file) *)

Record ScannedItem := mkScanned {
  s_productName : string;
  s_price : Q;
  s_category : option string;
  s_measureValue : option Q;
  s_measureUnit : option string
}.

Record CartItem := mkItem {
  id : string;
  productName : string;
  price : Q;
  category : option string;
  measureValue : option Q;
  measureUnit : option string;
  quantity : Z
}.

(** ** String helpers (JS built-ins) *)

Definition ascii_lower (c : ascii) : ascii :=
  let n := nat_of_ascii c in
  if (65 <=? n)%nat && (n <=? 90)%nat then ascii_of_nat (n + 32) else c.

(** [String.prototype.toLowerCase] on ASCII. *)
Fixpoint toLowerCase (s : string) : string :=
  match s with
  | EmptyString => EmptyString
  | String c r => String (ascii_lower c) (toLowerCase r)
  end.

(** [s.replace(/_/g, ' ')]. *)
Fixpoint replace_underscores (s : string) : string :=
  match s with
  | EmptyString => EmptyString
  | String c r =>
      String (if Ascii.eqb c "_"%char then " "%char else c) (replace_underscores r)
  end.

(** JS truthiness of the optional fields. *)
Definition truthy_str (o : option string) : bool :=
  match o with Some s => negb (String.eqb s "") | None => false end.

Definition truthy_num (o : option Q) : bool :=
  match o with Some v => negb (Qeq_bool v 0) | None => false end.

(** ** Comparison engine ([comparisonGroups], [bestValueIds]) *)

(** [const cat = item.category ? item.category.toLowerCase().replace(/_/g, ' ') : 'outros'] *)
Definition catKey (item : CartItem) : string :=
  match category item with
  | Some c => if String.eqb c "" then "outros" else replace_underscores (toLowerCase c)
  | None => "outros"
  end.

(** [if (item.measureValue && item.measureUnit)] *)
Definition comparable (item : CartItem) : bool :=
  truthy_num (measureValue item) && truthy_str (measureUnit item).

(** [grouped[cat].push(item)] on an own key of [grouped], creating it when
    missing. A key inherited from [Object.prototype] is handled in [pushJS]
    below, the step the loop actually performs. *)
Fixpoint push (k : string) (it : CartItem) (g : list (string * list CartItem))
  : list (string * list CartItem) :=
  match g with
  | [] => [(k, [it])]
  | (k', l) :: r =>
      if String.eqb k k' then (k', (l ++ [it])%list) :: r else (k', l) :: push k it r
  end.

(** The [items.forEach] loop filling [grouped], for a run that does not
    throw (see [groupItemsJS]). Keys are kept in insertion order: JS lists
    integer-like keys first, and no property below depends on the order. *)
Definition groupItems (items : list CartItem) : list (string * list CartItem) :=
  fold_left (fun g it => if comparable it then push (catKey it) it g else g) items [].

(** [i.measureUnit === u] *)
Definition unit_is (o : option string) (u : string) : bool :=
  match o with Some x => String.eqb x u | None => false end.

(** [getBasePrice] inside the comparator:
    [let val = i.measureValue || 1; if (i.measureUnit === 'kg') val *= 1000;
     if (i.measureUnit === 'l') val *= 1000; return i.price / val;] *)
Definition getBasePrice (i : CartItem) : Q :=
  let val0 := match measureValue i with
              | Some v => if Qeq_bool v 0 then 1 else v
              | None => 1 end in
  let val1 := if unit_is (measureUnit i) "kg" then val0 * 1000 else val0 in
  let val2 := if unit_is (measureUnit i) "l" then val1 * 1000 else val1 in
  price i / val2.

(** Stable insertion: an element goes before the first element it does not
    compare greater than ([getBasePrice(a) - getBasePrice(b) <= 0]); since
    [isort] inserts earlier elements into the sorted rest, equal keys keep
    their original order. *)
Fixpoint insert_by (x : CartItem) (l : list CartItem) : list CartItem :=
  match l with
  | [] => [x]
  | y :: r => if Qle_bool (getBasePrice x) (getBasePrice y) then x :: y :: r
              else y :: insert_by x r
  end.

Fixpoint isort (l : list CartItem) : list CartItem :=
  match l with
  | [] => []
  | x :: r => insert_by x (isort r)
  end.

(** [comparisonGroups]: group, then sort every group. This is the value of
    the [useMemo] whenever it does not throw ([comparisonGroupsJS_eq]). *)
Definition comparisonGroups (items : list CartItem) : list (string * list CartItem) :=
  map (fun kl => (fst kl, isort (snd kl))) (groupItems items).

(** [bestValueIds]: the id of the first entry of every group of size >= 2. *)
Definition bestValueIds (groups : list (string * list CartItem)) : list string :=
  fold_left (fun ids kl =>
    match snd kl with
    | x :: _ :: _ => (ids ++ [id x])%list
    | _ => ids
    end) groups [].

(** [bestValueIds.has(item.id)] *)
Definition isBestValue (items : list CartItem) (it : CartItem) : bool :=
  existsb (String.eqb (id it)) (bestValueIds (comparisonGroups items)).

(** ** Auxiliary notions for the comparison engine *)

(** The entries of [items] that the forEach loop puts under key [k], in
    insertion order. *)
Definition members (k : string) (items : list CartItem) : list CartItem :=
  filter (fun i => comparable i && String.eqb (catKey i) k) items.

(** Normalisation as the specification words it: times 1000 exactly for the
    large units ['kg'] and ['l']. *)
Definition normalizedMeasure (i : CartItem) : Q :=
  let v := match measureValue i with Some v => v | None => 1 end in
  if unit_is (measureUnit i) "kg" || unit_is (measureUnit i) "l" then v * 1000 else v.

(** Unit price as the specification words it: price / normalised measure. *)
Definition unitPrice (i : CartItem) : Q := price i / normalizedMeasure i.

(** Association-list lookup in [grouped]. *)
Fixpoint lookup (k : string) (g : list (string * list CartItem)) : option (list CartItem) :=
  match g with
  | [] => None
  | (k', l) :: r => if String.eqb k k' then Some l else lookup k r
  end.

(** ** [grouped] as a JavaScript object *)

(** The properties every object inherits from [Object.prototype]. *)
Definition objectPrototypeKeys : list string :=
  ["constructor"; "__defineGetter__"; "__defineSetter__"; "hasOwnProperty";
   "__lookupGetter__"; "__lookupSetter__"; "isPrototypeOf"; "propertyIsEnumerable";
   "toString"; "valueOf"; "__proto__"; "toLocaleString"].

Definition inherited (k : string) : bool := existsb (String.eqb k) objectPrototypeKeys.

(** What [grouped[cat]] reads on the object: its own entry, else the
    inherited property (a function, or [Object.prototype] for [__proto__]:
    truthy, and without a [push] method), else [undefined]. *)
Inductive Slot := Own (l : list CartItem) | Inherited | Undefined.

Definition getSlot (k : string) (g : list (string * list CartItem)) : Slot :=
  match lookup k g with
  | Some l => Own l
  | None => if inherited k then Inherited else Undefined
  end.

(** [if (!grouped[cat]) grouped[cat] = []; grouped[cat].push(item);]:
    an own or a missing key gets the item ([push]); on an inherited property
    [!grouped[cat]] is false, no array is created, and calling its [push]
    throws a [TypeError] ([None]). *)
Definition pushJS (k : string) (it : CartItem) (g : list (string * list CartItem))
  : option (list (string * list CartItem)) :=
  match getSlot k g with
  | Own _ | Undefined => Some (push k it g)
  | Inherited => None
  end.

(** The [items.forEach] loop: a [TypeError] ([None]) ends it. *)
Definition groupItemsJS (items : list CartItem) : option (list (string * list CartItem)) :=
  fold_left (fun og it =>
    match og with
    | None => None
    | Some g => if comparable it then pushJS (catKey it) it g else Some g
    end) items (Some []).

(** The [useMemo] computing [comparisonGroups]: [None] when it throws, which
    makes the render of [App] fail. *)
Definition comparisonGroupsJS (items : list CartItem) : option (list (string * list CartItem)) :=
  match groupItemsJS items with
  | Some g => Some (map (fun kl => (fst kl, isort (snd kl))) g)
  | None => None
  end.

(** The entries that make the loop throw: comparable, with a key inherited
    from [Object.prototype]. *)
Definition groupingThrows (items : list CartItem) : bool :=
  existsb (fun i => comparable i && inherited (catKey i)) items.

(** Example entries of the specification: A costs 10 for 500 g, B costs 22
    for 1 kg, both of category "rice". *)
Definition riceA : CartItem := mkItem "a" "Rice A" 10 (Some "rice") (Some 500) (Some "g") 1.
Definition riceB : CartItem := mkItem "b" "Rice B" 22 (Some "rice") (Some 1) (Some "kg") 1.

(** Two entries whose category strings differ only in case and in '_'
    versus ' '. *)
Definition pasteA : CartItem :=
  mkItem "d" "Paste A" 5 (Some "Creme_Dental") (Some 90) (Some "g") 1.
Definition pasteB : CartItem :=
  mkItem "e" "Paste B" 7 (Some "creme dental") (Some 180) (Some "g") 1.

(** ** Decimal digits (used by [uuidv4] ids, [parseFloat] and the share text) *)

Definition digit_char (d : nat) : ascii := ascii_of_nat (48 + d).

Definition is_digit (c : ascii) : bool :=
  let n := nat_of_ascii c in (48 <=? n)%nat && (n <=? 57)%nat.

Definition digit_val (c : ascii) : nat := nat_of_ascii c - 48.

Fixpoint digits_fuel (fuel n : nat) : list ascii :=
  match fuel with
  | O => []
  | S f => if (n <? 10)%nat then [digit_char n]
           else (digits_fuel f (n / 10) ++ [digit_char (n mod 10)])%list
  end.

(** Decimal representation of a natural number ([String(n)]). *)
Definition nat_digits (n : nat) : list ascii := digits_fuel (S n) n.

(** Value of a digit sequence, read left to right. *)
Definition digits_value (acc : nat) (ds : list ascii) : nat :=
  fold_left (fun a c => a * 10 + digit_val c)%nat ds acc.

(** [uuidv4()]: the generator is modelled by a counter [seed]; distinct seeds
    give distinct ids. *)
Definition uuidv4 (seed : nat) : string := String "u" (string_of_list_ascii (nat_digits seed)).

(** ** [trim], [split(' ')[0]], [replace(',', '.')], [parseFloat], the size regex *)

Definition is_ws (c : ascii) : bool :=
  let n := nat_of_ascii c in (n =? 32)%nat || ((9 <=? n)%nat && (n <=? 13)%nat).

Fixpoint drop_ws (l : list ascii) : list ascii :=
  match l with c :: r => if is_ws c then drop_ws r else l | [] => [] end.

(** [String.prototype.trim] *)
Definition trim (s : string) : string :=
  string_of_list_ascii (rev (drop_ws (rev (drop_ws (list_ascii_of_string s))))).

(** [s.split(' ')[0]]: the text before the first space. *)
Fixpoint first_space_field (s : string) : string :=
  match s with
  | EmptyString => EmptyString
  | String c r => if Ascii.eqb c " "%char then EmptyString else String c (first_space_field r)
  end.

(** [s.replace(',', '.')]: a string pattern replaces the first occurrence only. *)
Fixpoint replace_first_comma (s : string) : string :=
  match s with
  | EmptyString => EmptyString
  | String c r => if Ascii.eqb c ","%char then String "."%char r else String c (replace_first_comma r)
  end.

(** Longest prefix of digits, and the rest. *)
Fixpoint span_digits (l : list ascii) : list ascii * list ascii :=
  match l with
  | c :: r => if is_digit c then let (ds, rest) := span_digits r in (c :: ds, rest) else ([], l)
  | [] => ([], [])
  end.

Fixpoint span_by (p : ascii -> bool) (l : list ascii) : list ascii * list ascii :=
  match l with
  | c :: r => if p c then let (xs, rest) := span_by p r in (c :: xs, rest) else ([], l)
  | [] => ([], [])
  end.

Definition decimal_value (ip fp : list ascii) : Q :=
  inject_Z (Z.of_nat (digits_value 0 ip)) +
  (Z.of_nat (digits_value 0 fp) # Pos.of_nat (10 ^ List.length fp)).

(** [parseFloat] on decimal literals: leading white space, an optional sign,
    digits with an optional fraction; [None] is NaN (no digit at all).
    Exponents and ["Infinity"] are not modelled. *)
Definition parseFloat (s : string) : option Q :=
  let l := drop_ws (list_ascii_of_string s) in
  let '(neg, l1) := match l with
                    | "-"%char :: r => (true, r)
                    | "+"%char :: r => (false, r)
                    | _ => (false, l) end in
  let (ip, rest) := span_digits l1 in
  let fp := match rest with "."%char :: r => fst (span_digits r) | _ => [] end in
  match ip, fp with
  | [], [] => None
  | _, _ => let v := decimal_value ip fp in Some (if neg then - v else v)
  end.

Definition is_alpha (c : ascii) : bool :=
  let n := nat_of_ascii c in ((65 <=? n)%nat && (n <=? 90)%nat) || ((97 <=? n)%nat && (n <=? 122)%nat).

(** [/(\d+(?:\.\d+)?)\s*([a-zA-Z]+)/] tried at the start of [l].  Greedy
    matching gives the only match at a position: any shorter choice for a
    quantifier leaves a digit, a dot or a blank where a letter is needed. *)
Definition size_match_at (l : list ascii) : option (list ascii * list ascii) :=
  let (ds, r1) := span_digits l in
  match ds with
  | [] => None
  | _ =>
    let '(num, r2) := match r1 with
                      | "."%char :: r => let (fs, r') := span_digits r in
                                         match fs with
                                         | [] => (ds, r1)
                                         | _ => ((ds ++ "."%char :: fs)%list, r')
                                         end
                      | _ => (ds, r1) end in
    let (letters, _) := span_by is_alpha (snd (span_by is_ws r2)) in
    match letters with [] => None | _ => Some (num, letters) end
  end.

(** [manualSize.match(...)]: the leftmost position where the regex matches. *)
Fixpoint size_match (l : list ascii) : option (list ascii * list ascii) :=
  match size_match_at l with
  | Some m => Some m
  | None => match l with [] => None | _ :: r => size_match r end
  end.

(** ** Cart store *)

(** [Partial<CartItem>] *)
Record Patch := mkPatch {
  p_id : option string;
  p_productName : option string;
  p_price : option Q;
  p_category : option (option string);
  p_measureValue : option (option Q);
  p_measureUnit : option (option string);
  p_quantity : option Z
}.

Definition emptyPatch : Patch := mkPatch None None None None None None None.

Definition opt_or {A} (o : option A) (d : A) : A := match o with Some x => x | None => d end.

(** [{ ...item, ...updates }] *)
Definition merge (it : CartItem) (u : Patch) : CartItem :=
  mkItem (opt_or (p_id u) (id it)) (opt_or (p_productName u) (productName it))
         (opt_or (p_price u) (price it)) (opt_or (p_category u) (category it))
         (opt_or (p_measureValue u) (measureValue it))
         (opt_or (p_measureUnit u) (measureUnit it))
         (opt_or (p_quantity u) (quantity it)).

Definition quantityPatch (q : Z) : Patch := mkPatch None None None None None None (Some q).
Definition namePatch (n : string) : Patch := mkPatch None (Some n) None None None None None.

(** [handleUpdateItem] *)
Definition handleUpdateItem (i : string) (u : Patch) (items : list CartItem) : list CartItem :=
  map (fun it => if String.eqb (id it) i then merge it u else it) items.

(** [handleRemoveItem] *)
Definition handleRemoveItem (i : string) (items : list CartItem) : list CartItem :=
  filter (fun it => negb (String.eqb (id it) i)) items.

(** [CartItemRow.handleIncrement] for the row showing [item]. *)
Definition handleIncrement (item : CartItem) (items : list CartItem) : list CartItem :=
  handleUpdateItem (id item) (quantityPatch (quantity item + 1)) items.

(** [CartItemRow.handleDecrement] for the row showing [item]. *)
Definition handleDecrement (item : CartItem) (items : list CartItem) : list CartItem :=
  if (quantity item >? 1)%Z
  then handleUpdateItem (id item) (quantityPatch (quantity item - 1)) items
  else handleRemoveItem (id item) items.

(** [CartItemRow.handleNameBlur] *)
Definition handleNameBlur (item : CartItem) (tempName : string) (items : list CartItem)
  : list CartItem :=
  if negb (String.eqb (trim tempName) (productName item))
  then handleUpdateItem (id item) (namePatch tempName) items else items.

(** [handleAddManualItem]: [None] when the form is rejected (blank field or
    NaN price); otherwise the new entry, with id [uuidv4 seed]. *)
Definition handleAddManualItem (manualName manualPrice manualSize : string) (seed : nat)
  : option CartItem :=
  if String.eqb (trim manualName) "" || String.eqb (trim manualPrice) "" then None else
  match parseFloat (replace_first_comma manualPrice) with
  | None => None
  | Some priceValue =>
    let '(mValue, mUnit) :=
      if negb (String.eqb (trim manualSize) "") then
        match size_match (list_ascii_of_string manualSize) with
        | Some (num, unit) =>
            (parseFloat (string_of_list_ascii num),
             Some (toLowerCase (string_of_list_ascii unit)))
        | None => (None, None)
        end
      else (None, None) in
    Some (mkItem (uuidv4 seed) (trim manualName) priceValue
                 (Some (toLowerCase (first_space_field manualName))) mValue mUnit 1)
  end.

(** The application state of [App]. *)
Record AnalysisState := mkStatus { isAnalyzing : bool; error : option string }.

Record AppState := mkApp {
  items : list CartItem;
  seed : nat;
  status : AnalysisState;
  analyzingProgress : option (nat * nat)
}.

Definition with_items (st : AppState) (l : list CartItem) : AppState :=
  mkApp l (seed st) (status st) (analyzingProgress st).

(** [handleAddManualItem] on the state: prepend the new entry. *)
Definition addManual (manualName manualPrice manualSize : string) (st : AppState) : AppState :=
  match handleAddManualItem manualName manualPrice manualSize (seed st) with
  | Some it => mkApp (it :: items st) (S (seed st)) (status st) (analyzingProgress st)
  | None => st
  end.

(** [handleClearAll]: [confirmed] is the answer to [window.confirm]. *)
Definition handleClearAll (confirmed : bool) (st : AppState) : AppState :=
  if confirmed then with_items st [] else st.


(** ** [handleFileChange]: a batch of files analysed one after the other *)

Section FileBatch.

Variable File : Type.

(** [analyzeProductImage]: the external analysis; [None] when its promise
    rejects. *)
Variable analyzeProductImage : File -> option ScannedItem.

(** Observable effects of the handler, in order. *)
Inductive Event :=
  | SetStatus (s : AnalysisState)
  | SetProgress (p : option (nat * nat))
  | CallStart (f : File)           (* [await analyzeProductImage(files[i])] begins *)
  | CallEnd (f : File) (ok : bool) (* ... and settles *)
  | SetItems.

Definition batchError : string := "Alguns arquivos não puderam ser processados.".

Definition toCartItem (uid : string) (result : ScannedItem) : CartItem :=
  mkItem uid (s_productName result) (s_price result) (s_category result)
         (s_measureValue result) (s_measureUnit result) 1.

(** The [for] loop from index [i] of [n]: the new items so far, [errorMsg],
    the id counter and the event log are threaded through. *)
Fixpoint batchLoop (i n : nat) (fs : list File) (newItems : list CartItem)
  (errorMsg : option string) (sd : nat) (log : list Event)
  : list CartItem * option string * nat * list Event :=
  match fs with
  | [] => (newItems, errorMsg, sd, log)
  | f :: rest =>
      let log1 := (log ++ [SetProgress (Some (S i, n)); CallStart f])%list in
      match analyzeProductImage f with
      | Some result =>
          batchLoop (S i) n rest (newItems ++ [toCartItem (uuidv4 sd) result])%list
                    errorMsg (S sd) (log1 ++ [CallEnd f true])%list
      | None =>
          batchLoop (S i) n rest newItems (Some batchError) sd (log1 ++ [CallEnd f false])%list
      end
  end.

(** [handleFileChange] on the state, with its event log. *)
Definition handleFileChange (files : list File) (st : AppState) : AppState * list Event :=
  match files with
  | [] => (st, [])
  | _ =>
    let n := List.length files in
    let log0 := [SetStatus (mkStatus true None); SetProgress (Some (0%nat, n))] in
    let '(newItems, errorMsg, sd, log) := batchLoop 0%nat n files [] None (seed st) log0 in
    (mkApp (newItems ++ items st) sd (mkStatus false errorMsg) None,
     (log ++ [SetItems; SetStatus (mkStatus false errorMsg); SetProgress None])%list)
  end.

(** The successful analyses, in file order. *)
Fixpoint successes (fs : list File) : list ScannedItem :=
  match fs with
  | [] => []
  | f :: r => match analyzeProductImage f with
              | Some s => s :: successes r
              | None => successes r
              end
  end.

(** The entries a run adds, ids drawn from the counter from [sd] on. *)
Fixpoint newEntries (sd : nat) (rs : list ScannedItem) : list CartItem :=
  match rs with
  | [] => []
  | r :: rest => toCartItem (uuidv4 sd) r :: newEntries (S sd) rest
  end.

Definition failed (f : File) : bool :=
  match analyzeProductImage f with Some _ => false | None => true end.

Definition isCall (e : Event) : bool :=
  match e with CallStart _ | CallEnd _ _ => true | _ => false end.

Definition isErrorStatus (e : Event) : bool :=
  match e with SetStatus s => match error s with Some _ => true | None => false end
          | _ => false end.

(** The events of the loop from index [i]: for every file in turn, the
    progress update, then the analysis call, which settles before the next
    file is touched. *)
Fixpoint batchLog (i n : nat) (fs : list File) : list Event :=
  match fs with
  | [] => []
  | f :: r => (SetProgress (Some (S i, n)) :: CallStart f :: CallEnd f (negb (failed f))
               :: batchLog (S i) n r)
  end.

End FileBatch.

Arguments SetStatus {File}.
Arguments SetProgress {File}.
Arguments CallStart {File}.
Arguments CallEnd {File}.
Arguments SetItems {File}.

(** ** Reachable cart states *)

Definition initialState : AppState := mkApp [] 0 (mkStatus false None) None.

(** One user action: a file batch (any file type and any outcome of the
    analysis), a manual entry, the +/- buttons or a name edit of a row
    showing an entry of the cart, removal, or clearing. *)
Inductive step : AppState -> AppState -> Prop :=
  | step_files (st : AppState) (File : Type) (analyze : File -> option ScannedItem) files :
      step st (fst (handleFileChange File analyze files st))
  | step_manual st name pr size : step st (addManual name pr size st)
  | step_increment st it : In it (items st) -> step st (with_items st (handleIncrement it (items st)))
  | step_decrement st it : In it (items st) -> step st (with_items st (handleDecrement it (items st)))
  | step_rename st it n : In it (items st) -> step st (with_items st (handleNameBlur it n (items st)))
  | step_remove st i : step st (with_items st (handleRemoveItem i (items st)))
  | step_clear st b : step st (handleClearAll b st).

Inductive reachable : AppState -> Prop :=
  | reach_init : reachable initialState
  | reach_step st st' : reachable st -> step st st' -> reachable st'.

(** The specification's example: "Milk" entered manually at price 4.5. *)
Definition milkState : AppState := addManual "Milk" "4.5" "" initialState.
Definition milk : CartItem := mkItem "u0" "Milk" (45 # 10) (Some "milk") None None 1.

(** ** Totals and budget ([App] calculations) *)

(** [items.reduce((sum, item) => sum + (item.price * item.quantity), 0)] *)
Definition totalCost (items : list CartItem) : Q :=
  fold_left (fun sum item => sum + price item * inject_Z (quantity item)) items 0.

(** [items.reduce((sum, item) => sum + item.quantity, 0)] *)
Definition itemCount (items : list CartItem) : Z :=
  fold_left (fun sum item => (sum + quantity item)%Z) items 0%Z.

(** [budget !== null && totalCost > budget] *)
Definition isOverBudget (budget : option Q) (total : Q) : bool :=
  match budget with Some b => negb (Qle_bool total b) | None => false end.

(** [budget ? ... : ...] tests the budget for truthiness: null and 0 are falsy. *)
Definition budget_truthy (budget : option Q) : option Q :=
  match budget with Some b => if Qeq_bool b 0 then None else Some b | None => None end.

(** [budget ? Math.min((totalCost / budget) * 100, 100) : 0] *)
Definition budgetPercentage (budget : option Q) (total : Q) : Q :=
  match budget_truthy budget with
  | Some b => let x := total / b * 100 in if Qle_bool x 100 then x else 100  (* Math.min *)
  | None => 0
  end.

(** [budget ? budget - totalCost : 0] *)
Definition remainingBudget (budget : option Q) (total : Q) : Q :=
  match budget_truthy budget with Some b => b - total | None => 0 end.

(** [handleFinalize]: [if (budget !== null) { const diff = budget - totalCost; ... }] *)
Definition finalizeDiff (budget : option Q) (total : Q) : option Q :=
  match budget with Some b => Some (b - total) | None => None end.

(** [handleSetBudget]: the new budget, or [None] when the input is NaN and
    the budget is left as it was. *)
Definition handleSetBudget (tempBudget : string) : option (option Q) :=
  if String.eqb tempBudget "" then Some None
  else match parseFloat (replace_first_comma tempBudget) with
       | Some v => Some (Some v)
       | None => None
       end.

(** A cart holding one entry of 60. *)
Definition item60 : CartItem := mkItem "f" "Cheese" 60 None None None 1.

(** The measure value the manual form derives from its size field. *)
Definition manualMeasureValue (manualSize : string) : option Q :=
  if negb (String.eqb (trim manualSize) "") then
    match size_match (list_ascii_of_string manualSize) with
    | Some (num, _) => parseFloat (string_of_list_ascii num)
    | None => None
    end
  else None.

(** ** Share text ([handleShareList]) *)

Definition las (s : string) : list ascii := list_ascii_of_string s.

Definition newline : ascii := ascii_of_nat 10.

(** U+00A0, the space [Intl.NumberFormat] puts after "R$", in UTF-8. *)
Definition nbsp : list ascii := [ascii_of_nat 194; ascii_of_nat 160].

(** Rounding to the cent, half away from zero (the [Intl.NumberFormat]
    default for two fraction digits). *)
Definition roundCents (v : Q) : Z :=
  if Qle_bool 0 v then Qfloor (v * 100 + (1 # 2)) else - Qfloor (- v * 100 + (1 # 2)).

(** Thousands separators, inserted from the right. *)
Fixpoint group_rev (l : list ascii) (k : nat) : list ascii :=
  match l with
  | [] => []
  | c :: r => if (k =? 3)%nat then "."%char :: c :: group_rev r 1 else c :: group_rev r (S k)
  end.

Definition group3 (ds : list ascii) : list ascii := rev (group_rev (rev ds) 0).

(** [formatCurrency]: [Intl.NumberFormat('pt-BR', {style: 'currency',
    currency: 'BRL'}).format(v)], e.g. "R$ 1.234,56" (with U+00A0). *)
Definition formatCurrency (v : Q) : list ascii :=
  let c := Z.abs (roundCents v) in
  let ip := Z.to_nat (c / 100) in
  let fr := Z.to_nat (c mod 100) in
  ((if Qle_bool 0 v then [] else ["-"%char]) ++ las "R$" ++ nbsp ++
   group3 (nat_digits ip) ++ [","%char; digit_char (fr / 10); digit_char (fr mod 10)])%list.

(** [String(n)] for an integer. *)
Definition Z_digits (z : Z) : list ascii :=
  if (z <? 0)%Z then "-"%char :: nat_digits (Z.to_nat (- z)) else nat_digits (Z.to_nat z).

(** [array.join('\n')] *)
Fixpoint join_lines (ls : list (list ascii)) : list ascii :=
  match ls with
  | [] => []
  | [l] => l
  | l :: r => (l ++ newline :: join_lines r)%list
  end.

(** [`${item.quantity}x ${item.productName} - ${formatCurrency(item.price * item.quantity)}`] *)
Definition shareLine (item : CartItem) : list ascii :=
  (Z_digits (quantity item) ++ las "x " ++ las (productName item) ++ las " - " ++
   formatCurrency (price item * inject_Z (quantity item)))%list.

Definition shareHeader : list ascii := las "🛒 *Lista SmartCart*".

Definition shareTotalLine (total : Q) : list ascii :=
  (las "💰 *Total: " ++ formatCurrency total ++ las "*")%list.

(** [handleShareList]: the text handed to [navigator.share] or the
    clipboard; [None] for the empty cart (early return). *)
Definition handleShareList (items : list CartItem) : option (list ascii) :=
  match items with
  | [] => None
  | _ =>
    let listText := join_lines (map shareLine items) in
    Some (shareHeader ++ [newline; newline] ++ listText ++ [newline; newline] ++
          shareTotalLine (totalCost items))%list
  end.

(** The re-parse described by the specification (not code of the
    repository): split the text into lines, add up the leading number of
    every item line (the lines between the two-line header and the two-line
    footer) and read the amount of the last line, whose digits are the
    centavos. *)
Fixpoint split_lines (l : list ascii) : list (list ascii) :=
  match l with
  | [] => [[]]
  | c :: r =>
      if Ascii.eqb c newline then [] :: split_lines r
      else match split_lines r with
           | [] => [[c]]
           | h :: t => (c :: h) :: t
           end
  end.

Definition leadingNumber (line : list ascii) : nat := digits_value 0 (fst (span_digits line)).

Definition reparseShare (text : list ascii) : nat * Q :=
  let ls := split_lines text in
  let itemLines := firstn (List.length ls - 4) (skipn 2 ls) in
  (fold_left (fun a l => a + leadingNumber l)%nat itemLines 0%nat,
   inject_Z (Z.of_nat (digits_value 0 (filter is_digit (last ls [])))) / 100).

(** Carts for the share text: a price of 0.333, and a name holding a line
    break. *)
Definition soda : CartItem := mkItem "g" "Soda" (333 # 1000) None None None 1.
Definition milkTwoLines : CartItem :=
  mkItem "h" (String "M"%char (String "i"%char (String "l"%char (String "k"%char
          (String newline "2x")))))
         4 None None None 1.

(** A character other than the line break. *)
Definition NL (c : ascii) : Prop := c <> newline.


(** ** Row and header displays *)

(** [CartItemRow]'s [pricePerUnitDisplay]:
    [item.measureValue && item.measureUnit && item.measureValue > 0
       ? `${formatCurrency(item.price / item.measureValue)}/${item.measureUnit}` : null] *)
Definition pricePerUnitDisplay (item : CartItem) : option (list ascii) :=
  match measureValue item, measureUnit item with
  | Some v, Some u =>
      if truthy_num (Some v) && truthy_str (Some u) && negb (Qle_bool v 0)
      then Some (formatCurrency (price item / v) ++ las "/" ++ las u)%list
      else None
  | _, _ => None
  end.

(** The comparison modal's
    [const unitPrice = item.measureValue ? item.price / item.measureValue : 0]. *)
Definition modalUnitPrice (item : CartItem) : Q :=
  match measureValue item with
  | Some v => if truthy_num (Some v) then price item / v else 0
  | None => 0
  end.

(** [Object.keys(comparisonGroups).length > 0]: whether the "Comparar Preços"
    button is rendered; [None] when computing [comparisonGroups] throws. *)
Definition showCompareButton (items : list CartItem) : option bool :=
  match comparisonGroupsJS items with
  | Some G => Some (negb (Nat.eqb (List.length G) 0))
  | None => None
  end.

(** ** Shopping list ([ShoppingListItem] and its matching against the cart) *)

(** [ShoppingListItem]; its [id] field is [l_id] here ([id] is the cart
    entry's field). *)
Record ShoppingListItem := mkListItem {
  l_id : string;
  name : string;
  isChecked : bool
}.

(** [String.prototype.includes]: [sub] occurs in [s] at some position. *)
Fixpoint includes (s sub : string) : bool :=
  String.prefix sub s || match s with EmptyString => false | String _ r => includes r sub end.

(** [isItemInCart]:
    [const normalizedList = listName.toLowerCase().trim();
     return items.some(item => item.productName.toLowerCase().includes(normalizedList));] *)
Definition isItemInCart (items : list CartItem) (listName : string) : bool :=
  let normalizedList := trim (toLowerCase listName) in
  existsb (fun item => includes (toLowerCase (productName item)) normalizedList) items.

(** [isItemInWishlist]:
    [const normalizedCart = cartName.toLowerCase();
     return shoppingList.some(listItem =>
       normalizedCart.includes(listItem.name.toLowerCase().trim()));] *)
Definition isItemInWishlist (shoppingList : list ShoppingListItem) (cartName : string) : bool :=
  let normalizedCart := toLowerCase cartName in
  existsb (fun listItem => includes normalizedCart (trim (toLowerCase (name listItem)))) shoppingList.

(** [handleFinalize]'s
    [shoppingList.filter(listItem => !isItemInCart(listItem.name))]. *)
Definition missingItems (shoppingList : list ShoppingListItem) (items : list CartItem)
  : list ShoppingListItem :=
  filter (fun listItem => negb (isItemInCart items (name listItem))) shoppingList.

(** [handleAddShoppingListItem]: [None] when the name is blank (early
    return); otherwise the list with the new entry appended. *)
Definition handleAddShoppingListItem (newListItemName : string) (sd : nat)
  (shoppingList : list ShoppingListItem) : option (list ShoppingListItem) :=
  if String.eqb (trim newListItemName) "" then None
  else Some (shoppingList ++ [mkListItem (uuidv4 sd) (trim newListItemName) false])%list.

(** [handleToggleListItem] *)
Definition handleToggleListItem (i : string) (shoppingList : list ShoppingListItem)
  : list ShoppingListItem :=
  map (fun x => if String.eqb (l_id x) i then mkListItem (l_id x) (name x) (negb (isChecked x))
                else x) shoppingList.

(** [handleDeleteListItem] *)
Definition handleDeleteListItem (i : string) (shoppingList : list ShoppingListItem)
  : list ShoppingListItem :=
  filter (fun x => negb (String.eqb (l_id x) i)) shoppingList.

(** [names.map(name => ({ id: uuidv4(), name, isChecked: false }))], ids
    drawn from the counter from [sd] on. *)
Fixpoint listEntries (sd : nat) (names : list string) : list ShoppingListItem :=
  match names with
  | [] => []
  | n :: r => mkListItem (uuidv4 sd) n false :: listEntries (S sd) r
  end.

(** ** [geminiService] *)

(** How a promise of the service settles: resolved with a value, rejected
    with an [Error] carrying a message, or rejected by the [FileReader]
    with its error event. *)
Inductive Outcome (A : Type) :=
  | Ok (a : A)
  | Thrown (msg : string)
  | ReaderError.

Arguments Ok {A}.
Arguments Thrown {A}.
Arguments ReaderError {A}.

(** [result.split(',')] *)
Fixpoint split_comma (l : list ascii) : list (list ascii) :=
  match l with
  | [] => [[]]
  | c :: r =>
      if Ascii.eqb c ","%char then [] :: split_comma r
      else match split_comma r with
           | [] => [[c]]
           | h :: t => (c :: h) :: t
           end
  end.

(** [fileToBase64]'s [onload]: [result.split(',')[1]]; [None] is [undefined]. *)
Definition base64Part (result : string) : option string :=
  option_map string_of_list_ascii (nth_error (split_comma (las result)) 1).

(** The data URL that [FileReader.readAsDataURL] produces (browser format). *)
Definition dataURL (mime payload : string) : string :=
  "data:" ++ mime ++ ";base64," ++ payload.

Definition msgNoKey : string := "API Key está faltando.".
Definition msgNoText : string := "Não foi possível obter resposta da IA.".
Definition msgAnalysisFailed : string := "Falha ao analisar o arquivo. Tente novamente.".
Definition msgListNoKey : string := "API Key faltando".
Definition msgListFailed : string := "Falha ao ler a lista de compras.".

(** The two requests the service sends (product schema, list schema). *)
Inductive Request := ProductRequest | ListRequest.

Section Gemini.

Variable File : Type.

(** [file.type] *)
Variable fileType : File -> string.

(** [reader.readAsDataURL(file)]: the result, or [None] on [onerror]. *)
Variable readAsDataURL : File -> option string.

(** [ai.models.generateContent(...)] for a request, a mime type and the
    base64 data: [Ok] with [response.text] ([None] when undefined), or a
    rejection. *)
Variable generateContent : Request -> string -> option string -> Outcome (option string).

(** [JSON.parse(text) as ScannedItem] and [JSON.parse(text) as string[]]. *)
Variable parseScanned : string -> Outcome ScannedItem.
Variable parseNames : string -> Outcome (list string).

(** [fileToBase64] *)
Definition fileToBase64 (file : File) : Outcome (option string) :=
  match readAsDataURL file with
  | Some result => Ok (base64Part result)
  | None => ReaderError
  end.

(** The [try] block of [analyzeProductImage]. *)
Definition analyzeTry (file : File) (base64Data : option string) : Outcome ScannedItem :=
  match generateContent ProductRequest (fileType file) base64Data with
  | Ok text =>
      match text with
      | Some t => if String.eqb t "" then Thrown msgNoText else parseScanned t
      | None => Thrown msgNoText
      end
  | Thrown m => Thrown m
  | ReaderError => ReaderError
  end.

(** [analyzeProductImage]: the key check, the file read (outside the
    [try]), then the [try]/[catch] that replaces every error by one message. *)
Definition analyzeProductImage (apiKey : string) (file : File) : Outcome ScannedItem :=
  if String.eqb apiKey "" then Thrown msgNoKey else
  match fileToBase64 file with
  | Ok base64Data =>
      match analyzeTry file base64Data with
      | Ok data => Ok data
      | _ => Thrown msgAnalysisFailed
      end
  | Thrown m => Thrown m
  | ReaderError => ReaderError
  end.

(** The [try] block of [extractShoppingList]. *)
Definition extractTry (file : File) (base64Data : option string) : Outcome (list string) :=
  match generateContent ListRequest (fileType file) base64Data with
  | Ok text =>
      match text with
      | Some t => if String.eqb t "" then Ok [] else parseNames t
      | None => Ok []
      end
  | Thrown m => Thrown m
  | ReaderError => ReaderError
  end.

(** [extractShoppingList] *)
Definition extractShoppingList (apiKey : string) (file : File) : Outcome (list string) :=
  if String.eqb apiKey "" then Thrown msgListNoKey else
  match fileToBase64 file with
  | Ok base64Data =>
      match extractTry file base64Data with
      | Ok names => Ok names
      | _ => Thrown msgListFailed
      end
  | Thrown m => Thrown m
  | ReaderError => ReaderError
  end.

End Gemini.

(** The analysis as [handleFileChange] sees it: a value, or a rejection. *)
Definition outcome_opt {A} (o : Outcome A) : option A :=
  match o with Ok a => Some a | _ => None end.

(** ** The whole application state: cart and shopping list *)

Record FullState := mkFull {
  app : AppState;
  shoppingList : list ShoppingListItem
}.

Definition with_seed (st : AppState) (sd : nat) : AppState :=
  mkApp (items st) sd (status st) (analyzingProgress st).

(** [handleAddShoppingListItem] on the state. *)
Definition addListItem (newListItemName : string) (st : FullState) : FullState :=
  match handleAddShoppingListItem newListItemName (seed (app st)) (shoppingList st) with
  | Some l => mkFull (with_seed (app st) (S (seed (app st)))) l
  | None => st
  end.

(** [handleImportList] once [extractShoppingList] has settled: on success
    the names are appended, on failure (the [alert]) nothing changes. *)
Definition handleImportList (outcome : Outcome (list string)) (st : FullState) : FullState :=
  match outcome with
  | Ok names =>
      mkFull (with_seed (app st) (seed (app st) + List.length names))
             (shoppingList st ++ listEntries (seed (app st)) names)
  | _ => st
  end.

Inductive fstep : FullState -> FullState -> Prop :=
  | fstep_cart st a : step (app st) a -> fstep st (mkFull a (shoppingList st))
  | fstep_add st nm : fstep st (addListItem nm st)
  | fstep_toggle st i : fstep st (mkFull (app st) (handleToggleListItem i (shoppingList st)))
  | fstep_delete st i : fstep st (mkFull (app st) (handleDeleteListItem i (shoppingList st)))
  | fstep_import st o : fstep st (handleImportList o st).

Inductive freachable : FullState -> Prop :=
  | freach_init : freachable (mkFull initialState [])
  | freach_step st st' : freachable st -> fstep st st' -> freachable st'.

(** Every id in use: the cart's, then the shopping list's. *)
Definition allIds (st : FullState) : list string :=
  (map id (items (app st)) ++ map l_id (shoppingList st))%list.

(** ** [handleFinalize] (PDF report) and the budget dialog *)

(** A row of the purchased-items table:
    [[item.quantity.toString(), item.productName + (bestValueIds.has(item.id)
      ? ' (Melhor Custo)' : ''), formatCurrency(item.price),
      formatCurrency(item.price * item.quantity)]] *)
Definition tableRow (items : list CartItem) (item : CartItem) : list (list ascii) :=
  [Z_digits (quantity item);
   (las (productName item) ++ (if isBestValue items item then las " (Melhor Custo)" else []))%list;
   formatCurrency (price item);
   formatCurrency (price item * inject_Z (quantity item))].

Definition tableBody (items : list CartItem) : list (list (list ascii)) :=
  map (tableRow items) items.

(** The balance line of the summary box, when a budget is set:
    ["Saldo / Economia: ..."] for [diff >= 0], ["Ultrapassou: ..."] otherwise. *)
Definition finalizeSummaryLine (budget : option Q) (total : Q) : option (list ascii) :=
  match finalizeDiff budget total with
  | Some diff =>
      if Qle_bool 0 diff then Some (las "Saldo / Economia: " ++ formatCurrency diff)%list
      else Some (las "Ultrapassou: " ++ formatCurrency (Qabs diff))%list
  | None => None
  end.

(** [Number.prototype.toString] for integral values (the decimal digits);
    [None] for other values, whose shortest-decimal output is not modelled. *)
Definition numberToString (v : Q) : option string :=
  let r := Qred v in
  if (Zpos (Qden r) =? 1)%Z then Some (string_of_list_ascii (Z_digits (Qnum r))) else None.

(** [BudgetSummary]'s [onClick]: [setTempBudget(budget ? budget.toString() : '')]. *)
Definition openBudgetModal (budget : option Q) : option string :=
  match budget_truthy budget with
  | Some b => numberToString b
  | None => Some ""
  end.

(** A group of two or more entries, and the id of a group's first entry. *)
Definition bigGroup (kl : string * list CartItem) : bool := (2 <=? List.length (snd kl))%nat.

Definition headId (kl : string * list CartItem) : string :=
  match snd kl with x :: _ => id x | [] => "" end.

(** An id the counter has handed out before [sd]. *)
Definition issued (sd : nat) (s : string) : Prop := exists k, (k < sd)%nat /\ s = uuidv4 k.

(** * Proofs *)

(** ** Grouping *)

Lemma lookup_push (k k' : string) (it : CartItem) g :
  lookup k (push k' it g) =
  if String.eqb k k' then Some (match lookup k g with Some l => (l ++ [it])%list | None => [it] end)
  else lookup k g.
Proof.
  induction g as [|[k0 l0] r IH]; simpl.
  - destruct (String.eqb k k'); reflexivity.
  - destruct (String.eqb k' k0) eqn:E0; simpl.
    + apply String.eqb_eq in E0; subst k0.
      destruct (String.eqb k k'); reflexivity.
    + rewrite IH. destruct (String.eqb k k') eqn:E1; [|reflexivity].
      apply String.eqb_eq in E1; subst k'. rewrite E0. reflexivity.
Qed.

Lemma lookup_in_keys k g : lookup k g <> None <-> In k (map fst g).
Proof.
  induction g as [|[k0 l0] r IH]; simpl.
  - tauto.
  - destruct (String.eqb k k0) eqn:E.
    + apply String.eqb_eq in E; subst. split; [auto|discriminate].
    + apply String.eqb_neq in E. rewrite IH. split; [auto|].
      intros [H|H]; [congruence|exact H].
Qed.

Lemma keys_push k it g :
  map fst (push k it g) = if existsb (String.eqb k) (map fst g) then map fst g
                          else (map fst g ++ [k])%list.
Proof.
  induction g as [|[k0 l0] r IH]; simpl; [reflexivity|].
  destruct (String.eqb k k0); simpl; [reflexivity|].
  rewrite IH. destruct (existsb (String.eqb k) (map fst r)); reflexivity.
Qed.

Lemma NoDup_push k it g : NoDup (map fst g) -> NoDup (map fst (push k it g)).
Proof.
  intros H. rewrite keys_push.
  destruct (existsb (String.eqb k) (map fst g)) eqn:E; [exact H|].
  apply NoDup_app; [exact H| constructor; [intros []|constructor] |].
  intros x Hx [Hy|[]]; subst x.
  assert (existsb (String.eqb k) (map fst g) = true) as C; [|congruence].
  apply existsb_exists. exists k. split; [exact Hx| apply String.eqb_refl].
Qed.

Definition nonempty_opt (l : list CartItem) : option (list CartItem) :=
  match l with [] => None | _ => Some l end.

Definition group_inv (pre : list CartItem) (g : list (string * list CartItem)) : Prop :=
  NoDup (map fst g) /\ forall k, lookup k g = nonempty_opt (members k pre).

Lemma members_snoc k pre it :
  members k (pre ++ [it]) =
  (members k pre ++ (if comparable it && String.eqb (catKey it) k then [it] else []))%list.
Proof. unfold members. rewrite filter_app. simpl. destruct (_ && _); reflexivity. Qed.

Lemma group_inv_step pre g it :
  group_inv pre g ->
  group_inv (pre ++ [it]) (if comparable it then push (catKey it) it g else g).
Proof.
  intros [HN HL]. destruct (comparable it) eqn:Ec.
  - split; [apply NoDup_push, HN|]. intros k.
    rewrite lookup_push, members_snoc, Ec. simpl.
    destruct (String.eqb k (catKey it)) eqn:E.
    + apply String.eqb_eq in E. subst k. rewrite String.eqb_refl, HL.
      destruct (members (catKey it) pre); reflexivity.
    + rewrite HL. destruct (String.eqb (catKey it) k) eqn:E'.
      * apply String.eqb_eq in E'. subst. rewrite String.eqb_refl in E. discriminate.
      * rewrite app_nil_r. reflexivity.
  - split; [exact HN|]. intros k. rewrite members_snoc, Ec. simpl.
    rewrite app_nil_r. apply HL.
Qed.

Lemma group_inv_fold rest : forall pre g, group_inv pre g ->
  group_inv (pre ++ rest)
    (fold_left (fun g it => if comparable it then push (catKey it) it g else g) rest g).
Proof.
  induction rest as [|it rest IH]; intros pre g H; simpl.
  - rewrite app_nil_r. exact H.
  - replace (pre ++ it :: rest)%list with ((pre ++ [it]) ++ rest)%list
      by (rewrite <- app_assoc; reflexivity).
    apply IH, group_inv_step, H.
Qed.

Lemma groupItems_inv items : group_inv items (groupItems items).
Proof.
  apply (group_inv_fold items []). split; [constructor|]. intros k. reflexivity.
Qed.

Lemma lookup_In k l g : NoDup (map fst g) -> In (k, l) g -> lookup k g = Some l.
Proof.
  induction g as [|[k0 l0] r IH]; simpl; [tauto|].
  intros HN [H|H].
  - inversion H; subst. rewrite String.eqb_refl. reflexivity.
  - inversion HN; subst. destruct (String.eqb k k0) eqn:E.
    + apply String.eqb_eq in E; subst. exfalso. apply H2.
      apply (in_map fst) in H. exact H.
    + apply IH; assumption.
Qed.

(** Every group of [groupItems] is exactly the entries under its key, in
    insertion order, and is not empty. *)
Lemma groupItems_In items k l :
  In (k, l) (groupItems items) -> l = members k items /\ l <> [].
Proof.
  intros H. destruct (groupItems_inv items) as [HN HL].
  pose proof (lookup_In _ _ _ HN H) as E. rewrite HL in E.
  destruct (members k items) eqn:M; simpl in E; [discriminate|].
  inversion E; subst. split; [reflexivity|discriminate].
Qed.

Lemma groupItems_key items k :
  members k items <> [] -> In (k, members k items) (groupItems items).
Proof.
  intros Hne. destruct (groupItems_inv items) as [HN HL].
  specialize (HL k). revert HL. generalize (groupItems items) as g. intros g HL.
  clear HN. induction g as [|[k0 l0] r IH]; simpl in HL.
  - destruct (members k items); [congruence|discriminate].
  - destruct (String.eqb k k0) eqn:E.
    + apply String.eqb_eq in E; subst. left.
      destruct (members k0 items); [congruence|]. inversion HL; reflexivity.
    + right. apply IH, HL.
Qed.

(** ** The stable sort *)

Definition key_le (a b : CartItem) : Prop := getBasePrice a <= getBasePrice b.

Lemma insert_by_perm x l : Permutation (insert_by x l) (x :: l).
Proof.
  induction l as [|y r IH]; simpl; [reflexivity|].
  destruct (Qle_bool (getBasePrice x) (getBasePrice y)); [reflexivity|].
  rewrite IH. apply perm_swap.
Qed.

Lemma isort_perm l : Permutation (isort l) l.
Proof.
  induction l as [|x r IH]; simpl; [reflexivity|].
  rewrite insert_by_perm. apply perm_skip, IH.
Qed.

Lemma insert_by_sorted x l : Sorted key_le l -> Sorted key_le (insert_by x l).
Proof.
  induction l as [|y r IH]; simpl; intros H.
  - repeat constructor.
  - destruct (Qle_bool (getBasePrice x) (getBasePrice y)) eqn:E.
    + constructor; [exact H|]. constructor. apply Qle_bool_iff, E.
    + assert (Hyx : key_le y x).
      { unfold key_le. apply Qlt_le_weak, Qnot_le_lt.
        intros C. apply Qle_bool_iff in C. congruence. }
      inversion H; subst. constructor; [apply IH; assumption|].
      destruct r as [|z r']; simpl; [constructor; exact Hyx|].
      inversion H3; subst.
      destruct (Qle_bool (getBasePrice x) (getBasePrice z)); constructor; assumption.
Qed.

Lemma isort_sorted l : Sorted key_le (isort l).
Proof. induction l; simpl; [constructor|apply insert_by_sorted; assumption]. Qed.

(** Stability: inserting [x] skips only entries of strictly smaller key, so
    the entries of any one key value keep their order. *)
Lemma insert_by_filter_key (p : Q) x l :
  filter (fun y => Qeq_bool (getBasePrice y) p) (insert_by x l) =
  filter (fun y => Qeq_bool (getBasePrice y) p) (x :: l).
Proof.
  induction l as [|y r IH]; [reflexivity|]. simpl insert_by.
  destruct (Qle_bool (getBasePrice x) (getBasePrice y)) eqn:E; [reflexivity|].
  assert (Hlt : getBasePrice y < getBasePrice x).
  { apply Qnot_le_lt. intros C. apply Qle_bool_iff in C. congruence. }
  change (filter ?f (y :: insert_by x r)) with
    (if f y then y :: filter f (insert_by x r) else filter f (insert_by x r)).
  rewrite IH. simpl.
  destruct (Qeq_bool (getBasePrice y) p) eqn:Ey; [|reflexivity].
  destruct (Qeq_bool (getBasePrice x) p) eqn:Ex; [|reflexivity].
  apply Qeq_bool_iff in Ey, Ex. exfalso.
  apply (Qlt_irrefl (getBasePrice x)). rewrite Ex at 1. rewrite <- Ey. exact Hlt.
Qed.

Lemma isort_filter_key (p : Q) l :
  filter (fun y => Qeq_bool (getBasePrice y) p) (isort l) =
  filter (fun y => Qeq_bool (getBasePrice y) p) l.
Proof.
  induction l as [|x r IH]; [reflexivity|]. simpl isort.
  rewrite insert_by_filter_key. simpl. rewrite IH. reflexivity.
Qed.

(** For a comparable entry the comparator's key is the specified unit price. *)
Lemma getBasePrice_unitPrice i : comparable i = true -> getBasePrice i == unitPrice i.
Proof.
  unfold comparable, getBasePrice, unitPrice, normalizedMeasure, truthy_num.
  destruct (measureValue i) as [v|]; [|discriminate]. simpl.
  destruct (Qeq_bool v 0) eqn:Ev; [discriminate|]. intros _.
  unfold unit_is. destruct (measureUnit i) as [u|]; simpl; [|reflexivity].
  destruct (String.eqb u "kg") eqn:Ekg.
  - apply String.eqb_eq in Ekg; subst u. simpl. reflexivity.
  - destruct (String.eqb u "l"); simpl; reflexivity.
Qed.

Lemma members_comparable k items : Forall (fun i => comparable i = true) (members k items).
Proof.
  apply Forall_forall. intros i Hi. unfold members in Hi.
  apply filter_In in Hi as [_ H]. apply andb_true_iff in H. apply H.
Qed.

Lemma sorted_unitPrice l :
  Forall (fun i => comparable i = true) l -> Sorted key_le l ->
  Sorted (fun a b => unitPrice a <= unitPrice b) l.
Proof.
  intros HF HS. induction HS as [|x r HS IH Hd]; constructor.
  - apply IH. inversion HF; assumption.
  - inversion HF as [|? ? Hx Hr]; subst. destruct Hd as [|y r' Hxy]; constructor.
    inversion Hr; subst. unfold key_le in Hxy.
    rewrite <- (getBasePrice_unitPrice x Hx), <- (getBasePrice_unitPrice y); assumption.
Qed.

Lemma filter_unitPrice (p : Q) l :
  Forall (fun i => comparable i = true) l ->
  filter (fun y => Qeq_bool (unitPrice y) p) l = filter (fun y => Qeq_bool (getBasePrice y) p) l.
Proof.
  induction 1 as [|x r Hx Hr IH]; [reflexivity|]. simpl. rewrite IH.
  replace (Qeq_bool (unitPrice x) p) with (Qeq_bool (getBasePrice x) p); [reflexivity|].
  pose proof (getBasePrice_unitPrice x Hx) as E.
  destruct (Qeq_bool (getBasePrice x) p) eqn:E1, (Qeq_bool (unitPrice x) p) eqn:E2;
    try reflexivity; exfalso.
  - apply Qeq_bool_iff in E1. rewrite E in E1. apply Qeq_bool_iff in E1. congruence.
  - apply Qeq_bool_iff in E2. rewrite <- E in E2. apply Qeq_bool_iff in E2. congruence.
Qed.

Lemma comparisonGroups_In items k g :
  In (k, g) (comparisonGroups items) ->
  g = isort (members k items) /\ members k items <> [].
Proof.
  unfold comparisonGroups. intros H. apply in_map_iff in H as [[k' l] [E H]].
  simpl in E. inversion E; subst. apply groupItems_In in H as [-> Hne]. auto.
Qed.

(** C1: every comparison group is sorted ascending by unit price (price over
    the measure value, times 1000 for 'kg' and 'l'), holds exactly the
    comparable entries of its key, and entries of equal unit price keep their
    insertion order. *)
Theorem comparisonGroups_sorted_stable (items : list CartItem) (k : string) (g : list CartItem) :
  In (k, g) (comparisonGroups items) ->
  Sorted (fun a b => unitPrice a <= unitPrice b) g /\
  Permutation g (members k items) /\
  (forall p : Q, filter (fun x => Qeq_bool (unitPrice x) p) g =
                 filter (fun x => Qeq_bool (unitPrice x) p) (members k items)).
Proof.
  intros H. apply comparisonGroups_In in H as [-> _].
  pose proof (members_comparable k items) as HF.
  assert (HF' : Forall (fun i => comparable i = true) (isort (members k items))).
  { eapply Permutation_Forall; [symmetry; apply isort_perm| exact HF]. }
  split; [|split].
  - apply sorted_unitPrice; [exact HF'|apply isort_sorted].
  - apply isort_perm.
  - intros p. rewrite (filter_unitPrice p _ HF'), (filter_unitPrice p _ HF).
    apply isort_filter_key.
Qed.

(** ** Best value *)

Lemma bestValueIds_acc G : forall acc,
  fold_left (fun ids kl => match snd kl with
                           | x :: _ :: _ => (ids ++ [id x])%list
                           | _ => ids end) G acc = (acc ++ bestValueIds G)%list.
Proof.
  unfold bestValueIds. induction G as [|[k l] G IH]; intros acc; simpl.
  - rewrite app_nil_r. reflexivity.
  - destruct l as [|x [|y r]]; simpl; rewrite IH; [reflexivity|reflexivity|].
    rewrite (IH [id x]), app_assoc. reflexivity.
Qed.

Lemma In_bestValueIds s G :
  In s (bestValueIds G) <-> exists k x y r, In (k, x :: y :: r) G /\ s = id x.
Proof.
  induction G as [|[k l] G IH]; simpl.
  - split; [intros []|]. intros (k & x & y & r & [] & _).
  - unfold bestValueIds in *. simpl. rewrite bestValueIds_acc.
    destruct l as [|x [|y r]]; simpl.
    + rewrite IH. split; intros (k' & x' & y' & r' & H1 & H2).
      * exists k', x', y', r'. auto.
      * destruct H1 as [H1|H1]; [discriminate|]. exists k', x', y', r'. auto.
    + rewrite IH. split; intros (k' & x' & y' & r' & H1 & H2).
      * exists k', x', y', r'. auto.
      * destruct H1 as [H1|H1]; [discriminate|]. exists k', x', y', r'. auto.
    + rewrite IH. split.
      * intros [H|(k' & x' & y' & r' & H1 & H2)].
        -- exists k, x, y, r. auto.
        -- exists k', x', y', r'. auto.
      * intros (k' & x' & y' & r' & [H1|H1] & H2).
        -- inversion H1; subst. auto.
        -- right. exists k', x', y', r'. auto.
Qed.

Lemma NoDup_map_filter {A B} (f : A -> B) (p : A -> bool) l :
  NoDup (map f l) -> NoDup (map f (filter p l)).
Proof.
  induction l as [|a l IH]; simpl; intros H; [constructor|].
  inversion H; subst. destruct (p a); simpl; [|auto].
  constructor; [|auto]. intros C. apply H2.
  apply in_map_iff in C as (b & Hb & Hin). apply filter_In in Hin as [Hin _].
  rewrite <- Hb. apply in_map, Hin.
Qed.

Lemma NoDup_map_inj {A B} (f : A -> B) l x y :
  NoDup (map f l) -> In x l -> In y l -> f x = f y -> x = y.
Proof.
  induction l as [|a l IH]; simpl; [tauto|]. intros HN Hx Hy E.
  inversion HN; subst. destruct Hx as [<-|Hx], Hy as [<-|Hy]; auto.
  - exfalso. apply H1. rewrite E. apply in_map, Hy.
  - exfalso. apply H1. rewrite <- E. apply in_map, Hx.
Qed.

Lemma comparisonGroups_member items k g x :
  In (k, g) (comparisonGroups items) -> In x g ->
  In x items /\ comparable x = true /\ catKey x = k.
Proof.
  intros H Hx. apply comparisonGroups_In in H as [-> _].
  apply (Permutation_in _ (isort_perm _)) in Hx.
  unfold members in Hx. apply filter_In in Hx as [Hx Hc].
  apply andb_true_iff in Hc as [Hc Hk]. apply String.eqb_eq in Hk. auto.
Qed.

Lemma comparisonGroups_keys items : NoDup (map fst (comparisonGroups items)).
Proof.
  unfold comparisonGroups. rewrite map_map. simpl.
  destruct (groupItems_inv items) as [HN _]. exact HN.
Qed.

Lemma comparisonGroups_unique items k g g' :
  In (k, g) (comparisonGroups items) -> In (k, g') (comparisonGroups items) -> g = g'.
Proof.
  intros H H'. pose proof (comparisonGroups_keys items) as HN.
  pose proof (lookup_In _ _ _ HN H) as E. pose proof (lookup_In _ _ _ HN H') as E'.
  congruence.
Qed.

Lemma comparisonGroups_NoDup_ids items k g :
  NoDup (map id items) -> In (k, g) (comparisonGroups items) -> NoDup (map id g).
Proof.
  intros HN H. apply comparisonGroups_In in H as [-> _].
  eapply Permutation_NoDup; [apply Permutation_map; symmetry; apply isort_perm|].
  apply NoDup_map_filter, HN.
Qed.

(** With distinct ids, an entry of a group is flagged exactly when it heads
    a group of two or more, and that group is its own. *)
Lemma isBestValue_in_group items k g z :
  NoDup (map id items) -> In (k, g) (comparisonGroups items) -> In z g ->
  isBestValue items z = true <-> exists y r, g = z :: y :: r.
Proof.
  intros HN Hg Hz. unfold isBestValue.
  rewrite existsb_exists. split.
  - intros (s & Hs & E). apply String.eqb_eq in E. subst s.
    apply In_bestValueIds in Hs as (k' & x & y & r & Hg' & E).
    destruct (comparisonGroups_member _ _ _ _ Hg Hz) as (Hzi & _ & Hzk).
    destruct (comparisonGroups_member _ _ _ x Hg' (or_introl eq_refl)) as (Hxi & _ & Hxk).
    assert (z = x) by (exact (NoDup_map_inj id items z x HN Hzi Hxi E)). subst x.
    assert (k' = k) as Ek by congruence. rewrite Ek in Hg'.
    rewrite (comparisonGroups_unique _ _ _ _ Hg Hg'). eauto.
  - intros (y & r & ->). exists (id z). split; [|apply String.eqb_refl].
    apply In_bestValueIds. exists k, z, y, r. auto.
Qed.

Lemma unitPrice_trans : Transitive (fun a b : CartItem => unitPrice a <= unitPrice b).
Proof. intros a b c H1 H2. eapply Qle_trans; eassumption. Qed.

(** C2: with distinct ids, a group of two or more entries has exactly one
    flagged "best value" entry, its first one, whose unit price is at most
    that of every entry of the group; a one-entry group has no flagged
    entry. *)
Theorem bestValue_unique_first (items : list CartItem) (k : string) (g : list CartItem)
  (Hids : NoDup (map id items)) (Hg : In (k, g) (comparisonGroups items)) :
  ((2 <= List.length g)%nat ->
   exists x rest, g = x :: rest /\ filter (isBestValue items) g = [x] /\
                  Forall (fun y => unitPrice x <= unitPrice y) g) /\
  (List.length g = 1%nat -> filter (isBestValue items) g = []).
Proof.
  pose proof (comparisonGroups_NoDup_ids _ _ _ Hids Hg) as HNg.
  split.
  - intros Hlen. destruct g as [|x [|y r]]; simpl in Hlen; try lia.
    exists x, (y :: r). split; [reflexivity|]. split.
    + assert (Hx : isBestValue items x = true).
      { apply (isBestValue_in_group items k _ x Hids Hg (or_introl eq_refl)). eauto. }
      change (filter (isBestValue items) (x :: y :: r)) with
        (if isBestValue items x then x :: filter (isBestValue items) (y :: r)
         else filter (isBestValue items) (y :: r)).
      rewrite Hx. f_equal.
      destruct (filter (isBestValue items) (y :: r)) as [|z zs] eqn:F; [reflexivity|].
      exfalso. assert (Hz : In z (filter (isBestValue items) (y :: r))) by (rewrite F; left; auto).
      apply filter_In in Hz as [Hz Hbz].
      apply (isBestValue_in_group items k (x :: y :: r) z Hids Hg (or_intror Hz)) in Hbz
        as (y' & r' & E). injection E as Ez _ _. subst z.
      simpl in HNg. inversion HNg as [|? ? Hnot _]; subst. apply Hnot.
      change (In (id x) (map id (y :: r))). apply in_map, Hz.
    + pose proof (comparisonGroups_sorted_stable _ _ _ Hg) as [HS _].
      apply Sorted_StronglySorted in HS; [|exact unitPrice_trans].
      apply StronglySorted_inv in HS as [_ HF]. constructor; [apply Qle_refl|exact HF].
  - intros Hlen. destruct g as [|x [|y r]]; simpl in Hlen; try lia.
    simpl. destruct (isBestValue items x) eqn:Hx; [|reflexivity].
    apply (isBestValue_in_group items k [x] x Hids Hg (or_introl eq_refl)) in Hx
      as (y & r & E). discriminate.
Qed.

(** The specification's example: unit prices 0.02 and 0.022 per gram, and A
    is the flagged entry. *)
Example rice_example :
  unitPrice riceA == 1 # 50 /\ unitPrice riceB == 22 # 1000 /\
  comparisonGroups [riceB; riceA] = [("rice", [riceA; riceB])] /\
  isBestValue [riceB; riceA] riceA = true /\ isBestValue [riceB; riceA] riceB = false.
Proof. repeat split; vm_compute; reflexivity. Qed.

Lemma comparisonGroups_sorted_stable_witness :
  In ("rice", [riceA; riceB]) (comparisonGroups [riceB; riceA]) /\
  Sorted (fun a b => unitPrice a <= unitPrice b) [riceA; riceB].
Proof.
  assert (H : In ("rice", [riceA; riceB]) (comparisonGroups [riceB; riceA]))
    by (vm_compute; left; reflexivity).
  split; [exact H|].
  exact (proj1 (comparisonGroups_sorted_stable [riceB; riceA] "rice" [riceA; riceB] H)).
Defined.

Lemma bestValue_unique_first_witness :
  NoDup (map id [riceB; riceA]) /\
  In ("rice", [riceA; riceB]) (comparisonGroups [riceB; riceA]) /\
  filter (isBestValue [riceB; riceA]) [riceA; riceB] = [riceA].
Proof.
  assert (HN : NoDup (map id [riceB; riceA])).
  { simpl. constructor; [simpl; intros [H|[]]; discriminate|].
    constructor; [intros []|constructor]. }
  assert (H : In ("rice", [riceA; riceB]) (comparisonGroups [riceB; riceA]))
    by (vm_compute; left; reflexivity).
  split; [exact HN|]. split; [exact H|].
  destruct (proj1 (bestValue_unique_first [riceB; riceA] "rice" [riceA; riceB] HN H)
              (le_n 2)) as (x & rest & E & F & _).
  injection E as <- <-. exact F.
Defined.

(** ** The loop on the JavaScript object *)

Lemma groupItemsJS_none l :
  fold_left (fun og it =>
    match og with
    | None => None
    | Some g => if comparable it then pushJS (catKey it) it g else Some g
    end) l None = None.
Proof. induction l as [|i l IH]; [reflexivity|]. exact IH. Qed.

Lemma push_not_inherited k it g :
  Forall (fun k' => inherited k' = false) (map fst g) -> inherited k = false ->
  Forall (fun k' => inherited k' = false) (map fst (push k it g)).
Proof.
  intros Hg Hk. rewrite keys_push. destruct (existsb _ _); [exact Hg|].
  apply Forall_app. split; [exact Hg|]. constructor; [exact Hk|constructor].
Qed.

Lemma groupItemsJS_fold l : forall g,
  Forall (fun k => inherited k = false) (map fst g) ->
  fold_left (fun og it =>
    match og with
    | None => None
    | Some g => if comparable it then pushJS (catKey it) it g else Some g
    end) l (Some g) =
  if groupingThrows l then None
  else Some (fold_left (fun g it => if comparable it then push (catKey it) it g else g) l g).
Proof.
  induction l as [|i l IH]; intros g Hg; [reflexivity|].
  unfold groupingThrows in *. cbn [fold_left existsb].
  destruct (comparable i) eqn:Ec; cbn [andb orb]; [|apply IH, Hg].
  unfold pushJS, getSlot. destruct (lookup (catKey i) g) as [l0|] eqn:El.
  - assert (Hk : inherited (catKey i) = false).
    { rewrite Forall_forall in Hg. apply Hg. apply lookup_in_keys. congruence. }
    rewrite Hk. cbn [orb]. apply IH, push_not_inherited; assumption.
  - destruct (inherited (catKey i)) eqn:Hk; cbn [orb].
    + apply groupItemsJS_none.
    + apply IH, push_not_inherited; assumption.
Qed.

Lemma comparisonGroupsJS_eq items :
  comparisonGroupsJS items = if groupingThrows items then None else Some (comparisonGroups items).
Proof.
  unfold comparisonGroupsJS, groupItemsJS. rewrite groupItemsJS_fold by constructor.
  destruct (groupingThrows items); reflexivity.
Qed.

Lemma comparisonGroupsJS_Some items G :
  comparisonGroupsJS items = Some G -> G = comparisonGroups items /\ groupingThrows items = false.
Proof.
  rewrite comparisonGroupsJS_eq. destruct (groupingThrows items); [discriminate|].
  intros H. injection H as <-. auto.
Qed.

Lemma groupingThrows_iff items :
  groupingThrows items = true <->
  exists i, In i items /\ comparable i = true /\ inherited (catKey i) = true.
Proof.
  unfold groupingThrows. rewrite existsb_exists. split.
  - intros (i & Hi & H). apply andb_true_iff in H. exists i. tauto.
  - intros (i & Hi & H1 & H2). exists i. rewrite H1, H2. auto.
Qed.

(** ** Membership of the groups *)

Lemma comparable_fields i :
  comparable i = true <->
  exists v u, measureValue i = Some v /\ ~ v == 0 /\ measureUnit i = Some u /\ u <> "".
Proof.
  unfold comparable, truthy_num, truthy_str. split.
  - destruct (measureValue i) as [v|], (measureUnit i) as [u|]; simpl; intros H;
      try (rewrite andb_false_r in H); try discriminate H.
    apply andb_true_iff in H as [H1 H2]. apply negb_true_iff in H1, H2.
    exists v, u. split; [reflexivity|]. split; [|split; [reflexivity|]].
    + intros C. apply Qeq_bool_iff in C. congruence.
    + intros C. subst u. discriminate.
  - intros (v & u & -> & Hv & -> & Hu). apply andb_true_iff. split; apply negb_true_iff.
    + destruct (Qeq_bool v 0) eqn:E; [|reflexivity]. apply Qeq_bool_iff in E. tauto.
    + apply String.eqb_neq, Hu.
Qed.

Lemma comparable_in_own_group items i :
  In i items -> comparable i = true ->
  exists g, In (catKey i, g) (comparisonGroups items) /\ In i g /\
    forall k' g', In (k', g') (comparisonGroups items) -> In i g' -> k' = catKey i /\ g' = g.
Proof.
  intros Hi Hc.
  assert (Hm : In i (members (catKey i) items)).
  { apply filter_In. split; [exact Hi|]. rewrite Hc, String.eqb_refl. reflexivity. }
  assert (Hg : In (catKey i, isort (members (catKey i) items)) (comparisonGroups items)).
  { unfold comparisonGroups. apply in_map_iff.
    exists (catKey i, members (catKey i) items). split; [reflexivity|].
    apply groupItems_key. intros E. rewrite E in Hm. exact Hm. }
  exists (isort (members (catKey i) items)). split; [exact Hg|]. split.
  - apply (Permutation_in _ (Permutation_sym (isort_perm _))), Hm.
  - intros k' g' Hg' Hig'.
    destruct (comparisonGroups_member _ _ _ _ Hg' Hig') as (_ & _ & Hk). subst k'.
    split; [reflexivity|]. exact (comparisonGroups_unique _ _ _ _ Hg' Hg).
Qed.

(** C3 (failing input): the manual entry "Constructor" of size "1kg" gets
    the category "constructor", a property every object inherits; the
    grouping loop throws, and no entry of the cart is grouped at all. *)
Lemma comparisonGroups_constructor_throws :
  exists it, handleAddManualItem "Constructor" "5" "1kg" 0 = Some it /\
    comparable it = true /\ catKey it = "constructor" /\
    comparisonGroupsJS [it; riceA] = None.
Proof.
  eexists. split; [vm_compute; reflexivity|]. split; [|split]; vm_compute; reflexivity.
Qed.

(** C3: computing the groups throws exactly when a comparable entry's
    normalised category names a property inherited from [Object.prototype];
    otherwise an entry with no measure value, or with no or an empty measure
    unit, is in no group, and an entry with a positive measure value and a
    non-empty unit is in exactly one group, the one keyed by its normalised
    category [catKey]. *)
Theorem comparisonGroups_partition (items : list CartItem) :
  (comparisonGroupsJS items = None <->
   exists i, In i items /\ comparable i = true /\ inherited (catKey i) = true) /\
  forall G, comparisonGroupsJS items = Some G -> forall i, In i items ->
  ((measureValue i = None \/ measureUnit i = None \/ measureUnit i = Some "") ->
   forall k g, In (k, g) G -> ~ In i g) /\
  (forall v u, measureValue i = Some v -> 0 < v -> measureUnit i = Some u -> u <> "" ->
   exists g, In (catKey i, g) G /\ In i g /\
     forall k' g', In (k', g') G -> In i g' -> k' = catKey i /\ g' = g).
Proof.
  split.
  - rewrite comparisonGroupsJS_eq, <- groupingThrows_iff.
    destruct (groupingThrows items); split; intros H; try reflexivity; discriminate H.
  - intros G HG i Hi. apply comparisonGroupsJS_Some in HG as [-> _]. split.
    + intros Hno k g Hg Hig.
      destruct (comparisonGroups_member _ _ _ _ Hg Hig) as (_ & Hc & _).
      apply comparable_fields in Hc as (v & u & Hv & _ & Hu & Hne).
      destruct Hno as [H|[H|H]]; rewrite H in *; congruence.
    + intros v u Hv Hpos Hu Hne. apply comparable_in_own_group; [exact Hi|].
      apply comparable_fields. exists v, u. repeat split; try assumption.
      intros C. rewrite C in Hpos. apply (Qlt_irrefl 0), Hpos.
Qed.

Lemma comparisonGroups_partition_witness :
  exists G, comparisonGroupsJS [riceB; riceA] = Some G /\
  exists g, In (catKey riceA, g) G /\ In riceA g.
Proof.
  destruct (comparisonGroupsJS [riceB; riceA]) as [G|] eqn:EG; [|vm_compute in EG; discriminate].
  exists G. split; [reflexivity|].
  destruct (proj2 (proj2 (comparisonGroups_partition [riceB; riceA]) G EG riceA
              (or_intror (or_introl eq_refl))) 500 "g"
              eq_refl eq_refl eq_refl ltac:(discriminate)) as (g & Hg & Hig & _).
  exists g. split; assumption.
Defined.

(** C7 (counterexample): the categories "Creme_Dental" and "creme dental"
    are different strings, yet both entries land in one group. *)
Lemma comparisonGroups_merge_spellings :
  category pasteA <> category pasteB /\
  comparisonGroupsJS [pasteA; pasteB] = Some [("creme dental", [pasteB; pasteA])].
Proof. split; [discriminate|vm_compute; reflexivity]. Qed.

(** C7 (amended): whenever the groups are computed, two comparable entries
    of the cart share a group exactly when their normalised categories agree
    ([catKey]: lower-cased, '_' replaced by ' ', "outros" when absent or
    empty). *)
Theorem comparisonGroups_same_group (items : list CartItem) (G : list (string * list CartItem))
  (a b : CartItem) (HG : comparisonGroupsJS items = Some G)
  (Ha : In a items) (Hb : In b items) (Hca : comparable a = true) (Hcb : comparable b = true) :
  (exists k g, In (k, g) G /\ In a g /\ In b g) <-> catKey a = catKey b.
Proof.
  apply comparisonGroupsJS_Some in HG as [-> _]. split.
  - intros (k & g & Hg & Hag & Hbg).
    destruct (comparisonGroups_member _ _ _ _ Hg Hag) as (_ & _ & Ea).
    destruct (comparisonGroups_member _ _ _ _ Hg Hbg) as (_ & _ & Eb). congruence.
  - intros E.
    destruct (comparable_in_own_group items a Ha Hca) as (g & Hg & Hag & _).
    destruct (comparable_in_own_group items b Hb Hcb) as (g' & Hg' & Hbg & _).
    rewrite <- E in Hg'. rewrite (comparisonGroups_unique _ _ _ _ Hg Hg') in Hag.
    exists (catKey a), g'. auto.
Qed.

Lemma comparisonGroups_same_group_witness :
  exists G, comparisonGroupsJS [pasteA; pasteB] = Some G /\
  exists k g, In (k, g) G /\ In pasteA g /\ In pasteB g.
Proof.
  destruct (comparisonGroupsJS [pasteA; pasteB]) as [G|] eqn:EG; [|vm_compute in EG; discriminate].
  exists G. split; [reflexivity|].
  apply (comparisonGroups_same_group [pasteA; pasteB] G pasteA pasteB EG
           (or_introl eq_refl) (or_intror (or_introl eq_refl)) eq_refl eq_refl).
  reflexivity.
Defined.

(** ** Decrement *)

Lemma handleUpdateItem_app i u l1 l2 :
  handleUpdateItem i u (l1 ++ l2) = (handleUpdateItem i u l1 ++ handleUpdateItem i u l2)%list.
Proof. apply map_app. Qed.

Lemma handleUpdateItem_absent i u l : ~ In i (map id l) -> handleUpdateItem i u l = l.
Proof.
  induction l as [|x l IH]; simpl; intros H; [reflexivity|].
  destruct (String.eqb (id x) i) eqn:E.
  - apply String.eqb_eq in E. exfalso. apply H. left. exact E.
  - rewrite IH; [reflexivity|]. intros C. apply H. right. exact C.
Qed.

Lemma handleRemoveItem_absent i l : ~ In i (map id l) -> handleRemoveItem i l = l.
Proof.
  induction l as [|x l IH]; simpl; intros H; [reflexivity|].
  destruct (String.eqb (id x) i) eqn:E; simpl.
  - apply String.eqb_eq in E. exfalso. apply H. left. exact E.
  - rewrite IH; [reflexivity|]. intros C. apply H. right. exact C.
Qed.

Lemma split_unique_id (l : list CartItem) it :
  NoDup (map id l) -> In it l ->
  exists l1 l2, l = (l1 ++ it :: l2)%list /\ ~ In (id it) (map id l1) /\ ~ In (id it) (map id l2).
Proof.
  intros HN Hin. apply in_split in Hin as (l1 & l2 & ->).
  exists l1, l2. split; [reflexivity|].
  rewrite map_app in HN. simpl in HN. apply NoDup_remove_2 in HN.
  rewrite in_app_iff in HN. split; intros C; apply HN; auto.
Qed.

(** C5: with distinct ids, decrementing the entry [it] of quantity 1 removes
    it and leaves the others in place; for quantity above 1 it lowers its
    quantity by one and leaves everything else unchanged. *)
Theorem handleDecrement_spec (items : list CartItem) (it : CartItem)
  (Hids : NoDup (map id items)) (Hin : In it items) :
  exists l1 l2, items = (l1 ++ it :: l2)%list /\
    (quantity it = 1%Z -> handleDecrement it items = (l1 ++ l2)%list) /\
    ((quantity it > 1)%Z ->
     handleDecrement it items =
     (l1 ++ mkItem (id it) (productName it) (price it) (category it) (measureValue it)
                   (measureUnit it) (quantity it - 1) :: l2)%list).
Proof.
  destruct (split_unique_id items it Hids Hin) as (l1 & l2 & -> & H1 & H2).
  exists l1, l2. split; [reflexivity|]. split.
  - intros Hq. unfold handleDecrement. rewrite Hq. simpl.
    unfold handleRemoveItem. rewrite filter_app. simpl. rewrite String.eqb_refl. simpl.
    fold (handleRemoveItem (id it) l1). fold (handleRemoveItem (id it) l2).
    rewrite !handleRemoveItem_absent by assumption. reflexivity.
  - intros Hq. unfold handleDecrement.
    replace (quantity it >? 1)%Z with true by (symmetry; apply Z.gtb_lt; lia).
    rewrite handleUpdateItem_app. simpl. rewrite String.eqb_refl.
    rewrite !handleUpdateItem_absent by assumption. reflexivity.
Qed.

(** The specification's example: after adding "Milk" at 4.5 and decrementing
    it, the cart is empty. *)
Lemma handleDecrement_spec_witness :
  items milkState = [milk] /\
  items (with_items milkState (handleDecrement milk (items milkState))) = [].
Proof.
  assert (E : items milkState = [milk]) by (vm_compute; reflexivity).
  split; [exact E|]. change (handleDecrement milk (items milkState) = []). rewrite E.
  assert (HN : NoDup (map id [milk])) by (constructor; [intros []|constructor]).
  destruct (handleDecrement_spec [milk] milk HN (or_introl eq_refl))
    as (l1 & l2 & Hs & Hq1 & _).
  rewrite (Hq1 eq_refl).
  destruct l1 as [|a l1].
  - destruct l2; [reflexivity|]. discriminate.
  - destruct l1; discriminate.
Defined.

(** ** The file batch loop *)

Lemma batchLoop_eq (File : Type) (an : File -> option ScannedItem) fs :
  forall i n acc err sd log,
  batchLoop File an i n fs acc err sd log =
  ((acc ++ newEntries sd (successes File an fs))%list,
   (if existsb (failed File an) fs then Some batchError else err),
   (sd + List.length (successes File an fs))%nat,
   (log ++ batchLog File an i n fs)%list).
Proof.
  induction fs as [|f fs IH]; intros i n acc err sd log; simpl.
  - rewrite !app_nil_r, Nat.add_0_r. reflexivity.
  - assert (Hf : failed File an f = match an f with Some _ => false | None => true end)
      by reflexivity.
    destruct (an f) as [r|] eqn:Ef; rewrite Hf, IH; simpl; rewrite <- !app_assoc; simpl.
    + rewrite Nat.add_succ_r. reflexivity.
    + destruct (existsb (failed File an) fs); reflexivity.
Qed.

Lemma newEntries_quantity sd rs : Forall (fun it => quantity it = 1%Z) (newEntries sd rs).
Proof. revert sd; induction rs; intros sd; simpl; constructor; auto. Qed.

(** ** Quantities stay positive *)

Definition quantities_pos (l : list CartItem) : Prop := Forall (fun it => (1 <= quantity it)%Z) l.

Lemma handleUpdateItem_pos i u l :
  quantities_pos l -> (forall q, p_quantity u = Some q -> (1 <= q)%Z) ->
  quantities_pos (handleUpdateItem i u l).
Proof.
  intros H Hu. unfold quantities_pos, handleUpdateItem. apply Forall_map.
  eapply Forall_impl; [|exact H]. intros x Hx.
  destruct (String.eqb (id x) i); [|exact Hx].
  unfold merge. simpl. destruct (p_quantity u) as [q|] eqn:E; simpl; [apply Hu; reflexivity|exact Hx].
Qed.

Lemma handleRemoveItem_pos i l : quantities_pos l -> quantities_pos (handleRemoveItem i l).
Proof.
  intros H. unfold quantities_pos in *. rewrite Forall_forall in *.
  intros x Hx. apply filter_In in Hx as [Hx _]. apply H, Hx.
Qed.

Lemma step_quantities_pos st st' : step st st' -> quantities_pos (items st) -> quantities_pos (items st').
Proof.
  intros Hs H. destruct Hs as [st File an files|st nm pr sz|st it Hin|st it Hin|st it n Hin|st i|st b].
  - unfold handleFileChange. destruct files as [|f fs]; [exact H|].
    rewrite batchLoop_eq. simpl. apply Forall_app. split; [|exact H].
    eapply Forall_impl; [|apply newEntries_quantity]. intros x ->. lia.
  - unfold addManual. destruct (handleAddManualItem nm pr sz (seed st)) as [it|] eqn:E; [|exact H].
    simpl. constructor; [|exact H]. unfold handleAddManualItem in E.
    destruct (_ || _); [discriminate|]. destruct (parseFloat _); [|discriminate].
    destruct (if negb _ then _ else _) as [mv mu]. injection E as <-. simpl. lia.
  - simpl. apply handleUpdateItem_pos; [exact H|]. intros q E. injection E as <-.
    unfold quantities_pos in H. rewrite Forall_forall in H. specialize (H it Hin). lia.
  - simpl. unfold handleDecrement. destruct (quantity it >? 1)%Z eqn:E.
    + apply handleUpdateItem_pos; [exact H|]. intros q Eq. injection Eq as <-.
      apply Z.gtb_lt in E. lia.
    + apply handleRemoveItem_pos, H.
  - simpl. unfold handleNameBlur. destruct (negb _); [|exact H].
    apply handleUpdateItem_pos; [exact H|]. intros q E. discriminate.
  - apply handleRemoveItem_pos, H.
  - unfold handleClearAll. destruct b; [constructor|exact H].
Qed.

(** C6: in every state reachable from the empty cart by file batches, manual
    entries, increments, decrements, name edits, removals and clearing,
    every entry has quantity at least 1. *)
Theorem reachable_quantity_pos (st : AppState) (Hr : reachable st) :
  Forall (fun it => (1 <= quantity it)%Z) (items st).
Proof.
  induction Hr as [|st st' Hr IH Hs].
  - constructor.
  - exact (step_quantities_pos st st' Hs IH).
Qed.

Lemma reachable_quantity_pos_witness :
  reachable (with_items milkState (handleIncrement milk (items milkState))) /\
  Forall (fun it => (1 <= quantity it)%Z)
         (items (with_items milkState (handleIncrement milk (items milkState)))).
Proof.
  assert (E : items milkState = [milk]) by (vm_compute; reflexivity).
  assert (H : reachable (with_items milkState (handleIncrement milk (items milkState)))).
  { apply reach_step with milkState.
    - apply reach_step with initialState; [constructor|apply step_manual].
    - apply step_increment. rewrite E. left. reflexivity. }
  split; [exact H|]. apply reachable_quantity_pos, H.
Defined.

(** ** The file batch *)

Lemma batchLog_calls (File : Type) (an : File -> option ScannedItem) i n fs :
  filter (isCall File) (batchLog File an i n fs) =
  flat_map (fun f => [CallStart f; CallEnd f (negb (failed File an f))]) fs.
Proof. revert i; induction fs as [|f fs IH]; intros i; simpl; [reflexivity|]. rewrite IH. reflexivity. Qed.

Lemma batchLog_no_error (File : Type) (an : File -> option ScannedItem) i n fs :
  filter (isErrorStatus File) (batchLog File an i n fs) = [].
Proof. revert i; induction fs as [|f fs IH]; intros i; simpl; [reflexivity|]. apply IH. Qed.

(** C8: for a non-empty batch, the files are analysed one after the other in
    order (each call settles before the next starts), a failed analysis does
    not stop the loop, every successful analysis adds an entry (prepended,
    in file order), and the error message is set at most once, after the
    last call, to one fixed text when any file failed. *)
Theorem handleFileChange_batch (File : Type) (an : File -> option ScannedItem)
  (files : list File) (st : AppState) (Hne : files <> []) :
  let err := if existsb (failed File an) files then Some batchError else None in
  let n := List.length files in
  snd (handleFileChange File an files st) =
    ([SetStatus (mkStatus true None); SetProgress (Some (0%nat, n))] ++
     batchLog File an 0 n files ++
     [SetItems; SetStatus (mkStatus false err); SetProgress None])%list /\
  filter (isCall File) (snd (handleFileChange File an files st)) =
    flat_map (fun f => [CallStart f; CallEnd f (negb (failed File an f))]) files /\
  items (fst (handleFileChange File an files st)) =
    (newEntries (seed st) (successes File an files) ++ items st)%list /\
  List.length (newEntries (seed st) (successes File an files)) =
    List.length (filter (fun f => negb (failed File an f)) files) /\
  status (fst (handleFileChange File an files st)) = mkStatus false err /\
  filter (isErrorStatus File) (snd (handleFileChange File an files st)) =
    match err with Some _ => [SetStatus (mkStatus false err)] | None => [] end.
Proof.
  intros err n. unfold handleFileChange.
  destruct files as [|f0 fs0]; [congruence|].
  rewrite batchLoop_eq. simpl. subst err n.
  assert (Hlen : forall sd l, List.length (newEntries sd (successes File an l)) =
                              List.length (filter (fun f => negb (failed File an f)) l)).
  { intros sd l. revert sd. induction l as [|f l IH]; intros sd; simpl; [reflexivity|].
    unfold failed at 1. destruct (an f); simpl; auto. }
  split; [|split; [|split; [|split; [|split]]]].
  - reflexivity.
  - rewrite !filter_app. simpl. rewrite batchLog_calls, app_nil_r. reflexivity.
  - reflexivity.
  - apply (Hlen (seed st) (f0 :: fs0)).
  - reflexivity.
  - rewrite !filter_app, batchLog_no_error. simpl.
    destruct (failed File an f0 || existsb (failed File an) fs0); reflexivity.
Qed.

Lemma handleFileChange_batch_witness :
  let an := fun k : nat => if (k =? 1)%nat then None else Some (mkScanned "Rice" 10 None None None) in
  [0; 1; 2]%nat <> [] /\
  status (fst (handleFileChange nat an [0; 1; 2]%nat initialState)) = mkStatus false (Some batchError) /\
  List.length (items (fst (handleFileChange nat an [0; 1; 2]%nat initialState))) = 2%nat.
Proof.
  intros an. assert (Hne : [0; 1; 2]%nat <> []) by discriminate.
  destruct (handleFileChange_batch nat an [0; 1; 2]%nat initialState Hne)
    as (_ & _ & Hi & _ & Hs & _).
  split; [exact Hne|]. split; [exact Hs|]. rewrite Hi. reflexivity.
Defined.

(** ** Totals and budget *)

(** The specification's example: budget 50 and a total of 60. *)
Example budget_fifty_example :
  totalCost [item60] == 60 /\ isOverBudget (Some 50) (totalCost [item60]) = true /\
  budgetPercentage (Some 50) (totalCost [item60]) == 100 /\
  remainingBudget (Some 50) (totalCost [item60]) == -10.
Proof. repeat split; vm_compute; reflexivity. Qed.

(** C4 (failing input): a budget of 0, as the budget form stores it for the
    input "0", with a cart total of 60: the cart is over budget and the PDF
    report computes a balance of -60, but [remainingBudget] shows 0 (and the
    usage bar 0%) because [budget ? ... : 0] treats the budget 0 as unset. *)
Theorem budget_zero_remaining :
  handleSetBudget "0" = Some (Some 0) /\
  totalCost [item60] == 60 /\
  isOverBudget (Some 0) (totalCost [item60]) = true /\
  finalizeDiff (Some 0) (totalCost [item60]) = Some (0 - totalCost [item60]) /\
  remainingBudget (Some 0) (totalCost [item60]) = 0 /\
  budgetPercentage (Some 0) (totalCost [item60]) = 0 /\
  ~ remainingBudget (Some 0) (totalCost [item60]) == 0 - totalCost [item60].
Proof.
  repeat split; try (vm_compute; reflexivity).
  vm_compute. discriminate.
Qed.

(** ** Manual entries *)

Lemma size_match_at_letters l num u : size_match_at l = Some (num, u) -> u <> [].
Proof.
  unfold size_match_at. intros H.
  repeat match type of H with
         | context [match ?M with pair _ _ => _ end] => destruct M
         end.
  repeat match type of H with
         | context [match ?L with nil => _ | cons _ _ => _ end] => destruct L
         end; try discriminate H.
  injection H as _ <-. discriminate.
Qed.

Lemma size_match_letters l num u : size_match l = Some (num, u) -> u <> [].
Proof.
  induction l as [|c l IH]; simpl.
  - intros H. discriminate H.
  - destruct (size_match_at (c :: l)) as [[n' u']|] eqn:E.
    + intros H. injection H as -> ->. apply (size_match_at_letters _ _ _ E).
    + exact IH.
Qed.

Lemma toLowerCase_nonempty s : s <> "" -> toLowerCase s <> "".
Proof. destruct s; simpl; [tauto|discriminate]. Qed.

(** C10 (failing input): the name " Arroz", typed with a leading space, is
    stored trimmed as "Arroz", but its category is taken from the untrimmed
    text: [" Arroz".split(' ')[0]] is the empty string, so the entry of size
    "1kg" is grouped under "outros" instead of "arroz". *)
Lemma manual_leading_space_category :
  exists it, handleAddManualItem " Arroz" "5" "1kg" 0 = Some it /\
    productName it = "Arroz" /\ category it = Some "" /\
    comparisonGroupsJS [it] = Some [("outros", [it])].
Proof.
  eexists. split; [vm_compute; reflexivity|]. split; [|split]; vm_compute; reflexivity.
Qed.

(** C10: an accepted manual entry has quantity 1, the trimmed name, and as
    category the lower-cased text before the first space of the name as
    typed (not trimmed); whenever the groups are computed, it is in a
    comparison group, the one of that category's key, exactly when its size
    field yields a non-zero measure value. *)
Theorem handleAddManualItem_spec (manualName manualPrice manualSize : string) (sd : nat)
  (it : CartItem) (items : list CartItem) (G : list (string * list CartItem))
  (H : handleAddManualItem manualName manualPrice manualSize sd = Some it) (Hin : In it items)
  (HG : comparisonGroupsJS items = Some G) :
  quantity it = 1%Z /\ productName it = trim manualName /\
  category it = Some (toLowerCase (first_space_field manualName)) /\
  measureValue it = manualMeasureValue manualSize /\
  ((exists g, In (catKey it, g) G /\ In it g) <->
   (exists v, manualMeasureValue manualSize = Some v /\ ~ v == 0)).
Proof.
  apply comparisonGroupsJS_Some in HG as [-> _].
  unfold handleAddManualItem in H.
  destruct (_ || _); [discriminate|]. destruct (parseFloat _) as [pv|]; [|discriminate].
  assert (Hmv : forall mv mu, (if negb (String.eqb (trim manualSize) "") then
        match size_match (list_ascii_of_string manualSize) with
        | Some (num, unit) => (parseFloat (string_of_list_ascii num),
                               Some (toLowerCase (string_of_list_ascii unit)))
        | None => (None, None) end else (None, None)) = (mv, mu) ->
        mv = manualMeasureValue manualSize /\
        (mv <> None -> exists u, mu = Some u /\ u <> "")).
  { intros mv mu E. unfold manualMeasureValue.
    destruct (negb _); [|injection E as <- <-; split; [reflexivity|tauto]].
    destruct (size_match _) as [[num u]|] eqn:Em; [|injection E as <- <-; split; [reflexivity|tauto]].
    injection E as <- <-. split; [reflexivity|]. intros _.
    eexists; split; [reflexivity|]. apply toLowerCase_nonempty.
    apply size_match_letters in Em. destruct u; [congruence|discriminate]. }
  destruct (if negb _ then _ else _) as [mv mu] eqn:Emu.
  destruct (Hmv mv mu eq_refl) as [Hv Hu]. clear Hmv.
  injection H as <-. simpl. split; [reflexivity|]. split; [reflexivity|].
  split; [reflexivity|]. split; [exact Hv|]. rewrite <- Hv. split.
  - intros (g & Hg & Hig).
    destruct (comparisonGroups_member _ _ _ _ Hg Hig) as (_ & Hc & _).
    apply comparable_fields in Hc as (v & u & E1 & E2 & _). exists v. auto.
  - intros (v & E1 & E2).
    set (it := mkItem (uuidv4 sd) (trim manualName) pv
                 (Some (toLowerCase (first_space_field manualName))) mv mu 1) in *.
    destruct (Hu ltac:(congruence)) as (u & E3 & E4).
    destruct (comparable_in_own_group items it Hin) as (g & Hg & Hig & _).
    + apply comparable_fields. exists v, u. auto.
    + exists g. auto.
Qed.

Lemma handleAddManualItem_spec_witness :
  exists it G, handleAddManualItem "Rice Tio" "10,5" "5kg" 0 = Some it /\
    comparisonGroupsJS [it] = Some G /\ exists g, In (catKey it, g) G /\ In it g.
Proof.
  destruct (handleAddManualItem "Rice Tio" "10,5" "5kg" 0) as [it|] eqn:E;
    [|vm_compute in E; discriminate].
  pose proof E as E'. vm_compute in E'. injection E' as E'. subst it.
  destruct (comparisonGroupsJS [mkItem "u0" "Rice Tio" (10 + (5 # 10)) (Some "rice") (Some (5 + (0 # 1))) (Some "kg") 1])
    as [G|] eqn:EG; [|vm_compute in EG; discriminate].
  eexists. exists G. split; [exact E|]. split; [exact EG|].
  destruct (handleAddManualItem_spec "Rice Tio" "10,5" "5kg" 0 _ [_] G E (or_introl eq_refl) EG)
    as (_ & _ & _ & _ & Hg).
  apply Hg. exists 5. split; [vm_compute; reflexivity|]. vm_compute. discriminate.
Defined.

(** ** Share text *)

Lemma digit_char_val d : (d < 10)%nat -> digit_val (digit_char d) = d /\ is_digit (digit_char d) = true.
Proof.
  intros H. unfold digit_val, is_digit, digit_char.
  rewrite nat_ascii_embedding by lia. split; [lia|].
  apply andb_true_iff. split; apply Nat.leb_le; lia.
Qed.

Lemma digits_value_app a l1 l2 : digits_value a (l1 ++ l2) = digits_value (digits_value a l1) l2.
Proof. unfold digits_value. apply fold_left_app. Qed.

Lemma digits_fuel_spec f : forall n, (n < f)%nat ->
  digits_value 0 (digits_fuel f n) = n /\ Forall (fun c => is_digit c = true) (digits_fuel f n).
Proof.
  induction f as [|f IH]; intros n Hn; [lia|].
  change (digits_fuel (S f) n) with
    (if (n <? 10)%nat then [digit_char n]
     else (digits_fuel f (n / 10) ++ [digit_char (n mod 10)])%list).
  destruct (n <? 10)%nat eqn:E.
  - apply Nat.ltb_lt in E. destruct (digit_char_val n E) as [H1 H2].
    split; [unfold digits_value; simpl; rewrite H1; reflexivity|].
    constructor; [exact H2|constructor].
  - apply Nat.ltb_ge in E.
    assert (Hd : (n / 10 < f)%nat).
    { assert (n / 10 < n)%nat by (apply Nat.div_lt; lia). lia. }
    destruct (IH (n / 10)%nat Hd) as [H1 H2].
    assert (Hm : (n mod 10 < 10)%nat) by (apply Nat.mod_upper_bound; lia).
    destruct (digit_char_val _ Hm) as [H3 H4].
    split.
    + rewrite digits_value_app, H1. unfold digits_value. cbn [fold_left]. rewrite H3.
      pose proof (Nat.div_mod n 10). lia.
    + apply Forall_app. split; [exact H2|constructor; [exact H4|constructor]].
Qed.

Lemma nat_digits_value n : digits_value 0 (nat_digits n) = n.
Proof. apply digits_fuel_spec. lia. Qed.

Lemma nat_digits_digits n : Forall (fun c => is_digit c = true) (nat_digits n).
Proof. apply digits_fuel_spec. lia. Qed.

Lemma span_digits_app ds rest :
  Forall (fun c => is_digit c = true) ds ->
  match rest with c :: _ => is_digit c = false | [] => True end ->
  span_digits (ds ++ rest) = (ds, rest).
Proof.
  induction 1 as [|c ds Hc Hds IH]; intros Hr; simpl.
  - destruct rest as [|c r]; [reflexivity|]. simpl. rewrite Hr. reflexivity.
  - rewrite Hc, IH by exact Hr. reflexivity.
Qed.

Lemma filter_digits_all l : Forall (fun c => is_digit c = true) l -> filter is_digit l = l.
Proof. induction 1; simpl; [reflexivity|]. rewrite H, IHForall. reflexivity. Qed.

Lemma filter_group_rev l k : filter is_digit (group_rev l k) = filter is_digit l.
Proof.
  revert k. induction l as [|c l IH]; intros k; simpl; [reflexivity|].
  destruct (k =? 3)%nat; simpl; rewrite IH; reflexivity.
Qed.

Lemma filter_rev {A} (p : A -> bool) l : filter p (rev l) = rev (filter p l).
Proof.
  induction l as [|a l IH]; simpl; [reflexivity|].
  rewrite filter_app, IH. simpl. destruct (p a); simpl; [reflexivity|apply app_nil_r].
Qed.

Lemma filter_group3 ds : filter is_digit (group3 ds) = filter is_digit ds.
Proof.
  unfold group3. rewrite filter_rev, filter_group_rev, filter_rev, rev_involutive. reflexivity.
Qed.

Lemma Forall_group_rev (P : ascii -> Prop) l k : P "."%char -> Forall P l -> Forall P (group_rev l k).
Proof.
  intros Hd H. revert k. induction H as [|c l Hc Hl IH]; intros k; simpl; [constructor|].
  destruct (k =? 3)%nat; repeat constructor; auto.
Qed.

Lemma Forall_group3 (P : ascii -> Prop) l : P "."%char -> Forall P l -> Forall P (group3 l).
Proof.
  intros Hd H. unfold group3. apply Forall_rev, Forall_group_rev, Forall_rev; assumption.
Qed.

Lemma roundCents_nonneg v : 0 <= v -> (0 <= roundCents v)%Z.
Proof.
  intros H. unfold roundCents. replace (Qle_bool 0 v) with true by (symmetry; apply Qle_bool_iff, H).
  assert (H0 : 0 <= v * 100 + (1 # 2)).
  { apply (Qle_trans _ (0 * 100 + 0)); [unfold Qle; simpl; lia|].
    apply Qplus_le_compat; [apply Qmult_le_compat_r; [exact H|unfold Qle; simpl; lia]|unfold Qle; simpl; lia]. }
  pose proof (Qfloor_resp_le 0 _ H0) as E. simpl in E. exact E.
Qed.

(** The digits of a non-negative amount as [formatCurrency] prints it are
    its centavos. *)
Lemma formatCurrency_digits v : 0 <= v ->
  digits_value 0 (filter is_digit (formatCurrency v)) = Z.to_nat (roundCents v).
Proof.
  intros Hv. unfold formatCurrency.
  replace (Qle_bool 0 v) with true by (symmetry; apply Qle_bool_iff, Hv).
  pose proof (roundCents_nonneg v Hv) as Hc.
  assert (Hcc : Z.abs (roundCents v) = roundCents v) by (apply Z.abs_eq, Hc).
  rewrite Hcc. remember (roundCents v) as c eqn:Ec. clear Ec Hcc.
  remember (Z.to_nat (c / 100)) as ip eqn:Eip.
  remember (Z.to_nat (c mod 100)) as fr eqn:Efr.
  assert (Hfr : (fr < 100)%nat).
  { subst fr. assert (0 <= c mod 100 < 100)%Z by (apply Z.mod_pos_bound; lia). lia. }
  assert (H1 : (fr / 10 < 10)%nat) by (apply Nat.Div0.div_lt_upper_bound; lia).
  assert (H2 : (fr mod 10 < 10)%nat) by (apply Nat.mod_upper_bound; lia).
  destruct (digit_char_val _ H1) as [V1 D1]. destruct (digit_char_val _ H2) as [V2 D2].
  assert (F1 : filter is_digit (las "R$") = []) by reflexivity.
  assert (F2 : filter is_digit nbsp = []) by reflexivity.
  assert (F3 : filter is_digit [","%char; digit_char (fr / 10); digit_char (fr mod 10)] =
               [digit_char (fr / 10); digit_char (fr mod 10)]).
  { cbn [filter]. rewrite D1, D2. reflexivity. }
  rewrite app_nil_l, !filter_app, F1, F2, F3, filter_group3.
  rewrite filter_digits_all by apply nat_digits_digits.
  rewrite app_nil_l, app_nil_l, digits_value_app, nat_digits_value.
  unfold digits_value. cbn [fold_left]. rewrite V1, V2.
  pose proof (Nat.div_mod fr 10).
  assert (E : (ip * 100 + fr)%nat = Z.to_nat c).
  { subst ip fr. pose proof (Z.div_mod c 100). assert (0 <= c / 100)%Z by (apply Z.div_pos; lia).
    assert (0 <= c mod 100)%Z by (apply Z.mod_pos_bound; lia). lia. }
  lia.
Qed.

Lemma no_nl_check l : forallb (fun c => negb (Ascii.eqb c newline)) l = true -> Forall NL l.
Proof.
  intros H. apply Forall_forall. intros c Hc Ec. subst c.
  apply forallb_forall with (x := newline) in H; [|exact Hc].
  rewrite Ascii.eqb_refl in H. discriminate.
Qed.

Lemma digit_NL c : is_digit c = true -> NL c.
Proof. intros H E. subst c. discriminate H. Qed.

Lemma split_lines_app x r h t : Forall NL x -> split_lines r = h :: t ->
  split_lines (x ++ r) = (x ++ h)%list :: t.
Proof.
  intros Hx Hr. induction Hx as [|c x Hc Hx IH]; simpl; [exact Hr|].
  replace (Ascii.eqb c newline) with false by (symmetry; apply Ascii.eqb_neq, Hc).
  rewrite IH. reflexivity.
Qed.

Lemma split_lines_nl x r : Forall NL x -> split_lines (x ++ newline :: r) = x :: split_lines r.
Proof.
  intros H. rewrite (split_lines_app x (newline :: r) [] (split_lines r)) by
    (exact H || reflexivity).
  rewrite app_nil_r. reflexivity.
Qed.

Lemma split_join ls : Forall (Forall NL) ls -> ls <> [] -> split_lines (join_lines ls) = ls.
Proof.
  induction 1 as [|l ls Hl Hls IH]; intros Hne; [congruence|].
  destruct ls as [|l2 ls].
  - simpl. rewrite <- (app_nil_r l) at 1.
    rewrite (split_lines_app l [] [] []) by (exact Hl || reflexivity).
    rewrite app_nil_r. reflexivity.
  - change (join_lines (l :: l2 :: ls)) with (l ++ newline :: join_lines (l2 :: ls))%list.
    rewrite split_lines_nl by exact Hl. rewrite IH by discriminate. reflexivity.
Qed.

Lemma join_lines_app l1 l2 : l1 <> [] -> l2 <> [] ->
  join_lines (l1 ++ l2) = (join_lines l1 ++ newline :: join_lines l2)%list.
Proof.
  intros H1 H2. induction l1 as [|a l1 IH]; [congruence|].
  destruct l1 as [|b l1].
  - simpl. destruct l2; [congruence|reflexivity].
  - change ((a :: b :: l1) ++ l2)%list with (a :: ((b :: l1) ++ l2))%list.
    change (join_lines (a :: (b :: l1) ++ l2)) with (a ++ newline :: join_lines ((b :: l1) ++ l2))%list.
    rewrite IH by discriminate. simpl. rewrite <- app_assoc. reflexivity.
Qed.

Lemma formatCurrency_NL v : Forall NL (formatCurrency v).
Proof.
  unfold formatCurrency. remember (Z.abs (roundCents v)) as c eqn:Ec.
  remember (Z.to_nat (c / 100)) as ip eqn:Eip.
  remember (Z.to_nat (c mod 100)) as fr eqn:Efr.
  assert (Hfr : (fr < 100)%nat).
  { subst fr. assert (0 <= c mod 100 < 100)%Z by (apply Z.mod_pos_bound; lia). lia. }
  clear Efr Eip Ec.
  assert (H1 : (fr / 10 < 10)%nat) by (apply Nat.Div0.div_lt_upper_bound; lia).
  assert (H2 : (fr mod 10 < 10)%nat) by (apply Nat.mod_upper_bound; lia).
  destruct (digit_char_val _ H1) as [_ D1]. destruct (digit_char_val _ H2) as [_ D2].
  rewrite !Forall_app; repeat split.
  - destruct (Qle_bool 0 v); apply no_nl_check; reflexivity.
  - apply no_nl_check; reflexivity.
  - apply no_nl_check; reflexivity.
  - apply Forall_group3; [discriminate|].
    eapply Forall_impl; [|apply nat_digits_digits]. exact digit_NL.
  - constructor; [discriminate|]. constructor; [apply digit_NL, D1|].
    constructor; [apply digit_NL, D2|constructor].
Qed.

Lemma shareLine_NL it : (0 <= quantity it)%Z -> Forall NL (las (productName it)) ->
  Forall NL (shareLine it).
Proof.
  intros Hq Hn. unfold shareLine, Z_digits.
  replace (quantity it <? 0)%Z with false by (symmetry; apply Z.ltb_ge, Hq).
  rewrite !Forall_app; repeat split.
  - eapply Forall_impl; [|apply nat_digits_digits]. exact digit_NL.
  - apply no_nl_check; reflexivity.
  - exact Hn.
  - apply no_nl_check; reflexivity.
  - apply formatCurrency_NL.
Qed.

Lemma leadingNumber_shareLine it : (0 <= quantity it)%Z ->
  leadingNumber (shareLine it) = Z.to_nat (quantity it).
Proof.
  intros Hq. unfold leadingNumber, shareLine, Z_digits.
  replace (quantity it <? 0)%Z with false by (symmetry; apply Z.ltb_ge, Hq).
  rewrite span_digits_app; [apply nat_digits_value|apply nat_digits_digits|reflexivity].
Qed.

Lemma count_lines items : forall a : nat,
  Forall (fun it => (0 <= quantity it)%Z) items ->
  Z.of_nat (fold_left (fun a l => a + leadingNumber l)%nat (map shareLine items) a) =
  fold_left (fun sum item => (sum + quantity item)%Z) items (Z.of_nat a).
Proof.
  induction items as [|it items IH]; intros a H; simpl; [reflexivity|].
  inversion H as [|? ? Hq Hr]; subst.
  rewrite IH by exact Hr. rewrite leadingNumber_shareLine by exact Hq.
  f_equal. lia.
Qed.

Lemma totalCost_nonneg_acc items : forall a, 0 <= a ->
  Forall (fun it => 0 <= price it /\ (0 <= quantity it)%Z) items ->
  0 <= fold_left (fun sum item => sum + price item * inject_Z (quantity item)) items a.
Proof.
  induction items as [|it items IH]; intros a Ha H; simpl; [exact Ha|].
  inversion H as [|? ? [Hp Hq] Hr]; subst. apply IH; [|exact Hr].
  apply (Qle_trans _ (a + 0)); [rewrite Qplus_0_r; exact Ha|].
  apply Qplus_le_compat; [apply Qle_refl|].
  apply Qmult_le_0_compat; [exact Hp|]. change 0 with (inject_Z 0). rewrite <- Zle_Qle. exact Hq.
Qed.

Lemma share_text_lines items : items <> [] ->
  handleShareList items =
  Some (join_lines ([shareHeader; []] ++ map shareLine items ++ [[]; shareTotalLine (totalCost items)])).
Proof.
  intros Hne. assert (Hm : map shareLine items <> []) by (destruct items; [congruence|discriminate]).
  destruct items as [|it0 rest]; [congruence|].
  change (handleShareList (it0 :: rest)) with
    (Some (shareHeader ++ [newline; newline] ++ join_lines (map shareLine (it0 :: rest)) ++
           [newline; newline] ++ shareTotalLine (totalCost (it0 :: rest))))%list.
  rewrite join_lines_app by (discriminate || (destruct (map shareLine (it0 :: rest)); discriminate)).
  rewrite join_lines_app by (exact Hm || discriminate).
  f_equal.
Qed.

Lemma share_lines_NL items :
  Forall (fun it => (0 <= quantity it)%Z) items ->
  Forall (fun it => Forall NL (las (productName it))) items ->
  Forall (Forall NL)
    ([shareHeader; []] ++ map shareLine items ++ [[]; shareTotalLine (totalCost items)])%list.
Proof.
  intros Hq Hn. rewrite !Forall_app. repeat split.
  - constructor; [apply no_nl_check; reflexivity|]. constructor; constructor.
  - apply Forall_map. induction items as [|it items IH]; [constructor|].
    inversion Hq as [|? ? Hq1 Hqr]; inversion Hn as [|? ? Hn1 Hnr]; subst.
    constructor; [apply shareLine_NL; assumption|apply IH; assumption].
  - constructor; [constructor|]. constructor; [|constructor].
    unfold shareTotalLine. rewrite !Forall_app. repeat split.
    + apply no_nl_check; reflexivity.
    + apply formatCurrency_NL.
    + apply no_nl_check; reflexivity.
Qed.

(** C9 (amended). For a non-empty cart whose quantities are at least 1,
    whose prices are not negative and whose names hold no line break, the
    share text produced by [handleShareList], split into lines and re-read,
    gives back exactly the item count ([itemCount]); the total read from
    the last line is the total cost rounded to whole centavos (what
    [formatCurrency] prints), not the exact [totalCost]. *)
Theorem handleShareList_reparse (items : list CartItem) (Hne : items <> [])
  (Hq : Forall (fun it => (1 <= quantity it)%Z) items)
  (Hp : Forall (fun it => 0 <= price it) items)
  (Hn : Forall (fun it => Forall NL (las (productName it))) items) :
  exists text, handleShareList items = Some text /\
    Z.of_nat (fst (reparseShare text)) = itemCount items /\
    snd (reparseShare text) == inject_Z (roundCents (totalCost items)) / 100.
Proof.
  assert (Hq0 : Forall (fun it => (0 <= quantity it)%Z) items).
  { eapply Forall_impl; [|exact Hq]. simpl. intros; lia. }
  assert (Ht : 0 <= totalCost items).
  { apply totalCost_nonneg_acc; [apply Qle_refl|].
    apply Forall_forall. intros it Hit. split.
    - eapply Forall_forall in Hp; eassumption.
    - eapply Forall_forall in Hq0; eassumption. }
  eexists. split; [apply share_text_lines, Hne|].
  unfold reparseShare.
  rewrite split_join; [| apply share_lines_NL; assumption | discriminate].
  remember (map shareLine items) as L eqn:EL.
  remember (shareTotalLine (totalCost items)) as T eqn:ET.
  assert (Hlen : (List.length ([shareHeader; []] ++ L ++ [[]; T]) - 4 = List.length L)%nat).
  { rewrite !length_app. simpl. lia. }
  rewrite Hlen.
  change (skipn 2 ([shareHeader; []] ++ L ++ [[]; T])) with (L ++ [[]; T])%list.
  rewrite firstn_app, Nat.sub_diag, firstn_all. simpl firstn. rewrite app_nil_r.
  replace ([shareHeader; []] ++ L ++ [[]; T])%list
    with (([shareHeader; []] ++ L ++ [[]]) ++ [T])%list
    by (rewrite <- !app_assoc; reflexivity).
  rewrite last_last. cbn [fst snd]. split.
  - subst L. rewrite (count_lines items 0%nat Hq0). reflexivity.
  - subst T. unfold shareTotalLine. rewrite !filter_app.
    change (filter is_digit (las "💰 *Total: ")) with (@nil ascii).
    change (filter is_digit (las "*")) with (@nil ascii).
    rewrite app_nil_l, app_nil_r, formatCurrency_digits by exact Ht.
    rewrite Z2Nat.id by (apply roundCents_nonneg, Ht). reflexivity.
Qed.

Lemma handleShareList_reparse_witness :
  exists text, handleShareList [milk; item60] = Some text /\
    Z.of_nat (fst (reparseShare text)) = itemCount [milk; item60] /\
    snd (reparseShare text) == inject_Z (roundCents (totalCost [milk; item60])) / 100.
Proof.
  apply (handleShareList_reparse [milk; item60]).
  - discriminate.
  - constructor; [discriminate|]. constructor; [discriminate|constructor].
  - constructor; [unfold Qle; simpl; lia|]. constructor; [unfold Qle; simpl; lia|constructor].
  - constructor; [apply no_nl_check; reflexivity|].
    constructor; [apply no_nl_check; reflexivity|constructor].
Defined.

(** C9 (counterexample). The round trip is not exact: for a cart holding
    one item of price 0.333 the total read back from the share text is
    0.33, not the total cost 0.333; and for a cart holding one item whose
    name contains a line break ("Milk" newline "2x") the re-parse counts 3
    items instead of 1. *)
Lemma share_reparse_inexact :
  (exists text, handleShareList [soda] = Some text /\
     ~ (snd (reparseShare text) == totalCost [soda])) /\
  (exists text, handleShareList [milkTwoLines] = Some text /\
     Z.of_nat (fst (reparseShare text)) <> itemCount [milkTwoLines]).
Proof.
  split; eexists; split; try reflexivity; vm_compute; discriminate.
Qed.

(** ** Shopping list and cart matching *)

Lemma handleAddManualItem_fields manualName manualPrice manualSize sd it :
  handleAddManualItem manualName manualPrice manualSize sd = Some it ->
  id it = uuidv4 sd /\ productName it = trim manualName /\ quantity it = 1%Z.
Proof.
  unfold handleAddManualItem. destruct (_ || _); [discriminate|].
  destruct (parseFloat _) as [pv|]; [|discriminate].
  destruct (if negb _ then _ else _) as [mv mu]. intros H. injection H as <-. auto.
Qed.

Lemma prefix_refl s : String.prefix s s = true.
Proof.
  induction s as [|c s IH]; simpl; [reflexivity|].
  destruct (ascii_dec c c); [exact IH|congruence].
Qed.

Lemma includes_refl s : includes s s = true.
Proof.
  destruct s as [|c r]; [reflexivity|].
  change (includes (String c r) (String c r))
    with (String.prefix (String c r) (String c r) || includes r (String c r)).
  rewrite prefix_refl. reflexivity.
Qed.

Lemma includes_empty s : includes s "" = true.
Proof. destruct s; reflexivity. Qed.

Lemma toLowerCase_las s : toLowerCase s = string_of_list_ascii (map ascii_lower (las s)).
Proof. induction s as [|c s IH]; simpl; [reflexivity|]. rewrite IH. reflexivity. Qed.

Lemma is_ws_lower c : is_ws (ascii_lower c) = is_ws c.
Proof.
  unfold ascii_lower. destruct ((65 <=? nat_of_ascii c)%nat && (nat_of_ascii c <=? 90)%nat) eqn:E;
    [|reflexivity].
  apply andb_true_iff in E as [E1 E2]. apply Nat.leb_le in E1, E2.
  unfold is_ws. rewrite nat_ascii_embedding by lia.
  destruct ((nat_of_ascii c + 32 =? 32)%nat) eqn:F1; [apply Nat.eqb_eq in F1; lia|].
  destruct ((9 <=? nat_of_ascii c + 32)%nat && (nat_of_ascii c + 32 <=? 13)%nat) eqn:F2.
  { apply andb_true_iff in F2 as [_ F2]. apply Nat.leb_le in F2. lia. }
  destruct ((nat_of_ascii c =? 32)%nat) eqn:G1; [apply Nat.eqb_eq in G1; lia|].
  destruct ((9 <=? nat_of_ascii c)%nat && (nat_of_ascii c <=? 13)%nat) eqn:G2; [|reflexivity].
  apply andb_true_iff in G2 as [_ G2]. apply Nat.leb_le in G2. lia.
Qed.

Lemma drop_ws_map l : drop_ws (map ascii_lower l) = map ascii_lower (drop_ws l).
Proof.
  induction l as [|c l IH]; simpl; [reflexivity|]. rewrite is_ws_lower.
  destruct (is_ws c); [exact IH|reflexivity].
Qed.

(** [trim] and [toLowerCase] commute: lower-casing never creates or removes
    white space. *)
Lemma trim_toLowerCase s : trim (toLowerCase s) = toLowerCase (trim s).
Proof.
  unfold trim. rewrite !toLowerCase_las. unfold las.
  rewrite !list_ascii_of_string_of_list_ascii.
  rewrite drop_ws_map, <- map_rev, drop_ws_map, <- map_rev. reflexivity.
Qed.

(** The list entries still missing after new cart entries [extra] are put
    in front of the cart are those missing before that [extra] does not
    fulfil either: adding to the cart can only shorten the PDF's
    missing-items table, and keeps its order. *)
Theorem missingItems_prepend (shoppingList : list ShoppingListItem) (extra items : list CartItem) :
  missingItems shoppingList (extra ++ items) =
  missingItems (missingItems shoppingList items) extra.
Proof.
  unfold missingItems, isItemInCart. induction shoppingList as [|li L IH]; simpl; [reflexivity|].
  rewrite existsb_app.
  destruct (existsb _ items) eqn:E2; simpl.
  - rewrite orb_true_r. simpl. exact IH.
  - rewrite orb_false_r. destruct (existsb _ extra); simpl; [exact IH|f_equal; exact IH].
Qed.

(** A cart row carries the "Na Lista" badge ([isItemInWishlist] of its
    name) exactly when that entry alone fulfils some shopping-list entry in
    the sense of [isItemInCart]: both tests compare the lower-cased product
    name with the lower-cased, trimmed list name. *)
Theorem isItemInWishlist_isItemInCart (shoppingList : list ShoppingListItem) (c : CartItem) :
  isItemInWishlist shoppingList (productName c) =
  existsb (fun listItem => isItemInCart [c] (name listItem)) shoppingList.
Proof.
  unfold isItemInWishlist, isItemInCart. induction shoppingList as [|li L IH]; simpl; [reflexivity|].
  rewrite IH, orb_false_r. reflexivity.
Qed.

(** A shopping-list entry whose name is blank (possible through an import,
    which does not trim) counts as found in any non-empty cart, so it is
    never listed as missing; and it puts the "Na Lista" badge on every cart
    row. *)
Theorem blank_list_entry_matches (shoppingList : list ShoppingListItem) (li : ShoppingListItem)
  (items : list CartItem) (Hli : In li shoppingList) (Hblank : trim (name li) = "") :
  isItemInCart items (name li) = negb (Nat.eqb (List.length items) 0) /\
  (items <> [] -> ~ In li (missingItems shoppingList items)) /\
  (forall cartName, isItemInWishlist shoppingList cartName = true).
Proof.
  assert (E : trim (toLowerCase (name li)) = "") by (rewrite trim_toLowerCase, Hblank; reflexivity).
  assert (Hc : isItemInCart items (name li) = negb (Nat.eqb (List.length items) 0)).
  { unfold isItemInCart. rewrite E. destruct items as [|x r]; simpl; [reflexivity|].
    rewrite includes_empty. reflexivity. }
  split; [exact Hc|]. split.
  - intros Hne Hin. unfold missingItems in Hin. apply filter_In in Hin as [_ Hn].
    rewrite Hc in Hn. destruct items; [congruence|discriminate].
  - intros cartName. unfold isItemInWishlist. apply existsb_exists. exists li.
    split; [exact Hli|]. rewrite E. apply includes_empty.
Qed.

Lemma blank_list_entry_matches_witness :
  isItemInCart [milk] (name (mkListItem "l0" "  " false)) = true /\
  ~ In (mkListItem "l0" "  " false) (missingItems [mkListItem "l0" "  " false] [milk]) /\
  isItemInWishlist [mkListItem "l0" "  " false] "Cheese" = true.
Proof.
  destruct (blank_list_entry_matches [mkListItem "l0" "  " false] (mkListItem "l0" "  " false)
              [milk] (or_introl eq_refl) eq_refl) as (H1 & H2 & H3).
  split; [rewrite H1; reflexivity|]. split; [apply H2; discriminate|apply H3].
Defined.

(** A manually added entry fulfils the shopping-list entry typed with the
    same text: that list entry is no longer missing, and the new cart row
    carries the "Na Lista" badge for it. *)
Theorem manual_item_fulfils_list_entry (manualName manualPrice manualSize : string) (sd : nat)
  (it : CartItem) (items : list CartItem) (shoppingList : list ShoppingListItem)
  (li : ShoppingListItem)
  (H : handleAddManualItem manualName manualPrice manualSize sd = Some it)
  (Hli : In li shoppingList) (Hname : name li = manualName) :
  ~ In li (missingItems shoppingList (it :: items)) /\
  isItemInWishlist shoppingList (productName it) = true.
Proof.
  destruct (handleAddManualItem_fields _ _ _ _ _ H) as (_ & Hn & _).
  assert (Hinc : includes (toLowerCase (productName it)) (trim (toLowerCase (name li))) = true).
  { rewrite Hn, Hname, trim_toLowerCase. apply includes_refl. }
  split.
  - intros Hin. unfold missingItems in Hin. apply filter_In in Hin as [_ Hm].
    unfold isItemInCart in Hm. simpl in Hm. rewrite Hinc in Hm. discriminate.
  - unfold isItemInWishlist. apply existsb_exists. exists li. auto.
Qed.

Lemma manual_item_fulfils_list_entry_witness :
  handleAddManualItem "Leite" "4,5" "" 0 = Some (mkItem "u0" "Leite" (45 # 10) (Some "leite") None None 1) /\
  ~ In (mkListItem "l0" "Leite" false)
       (missingItems [mkListItem "l0" "Leite" false] [mkItem "u0" "Leite" (45 # 10) (Some "leite") None None 1]).
Proof.
  assert (H : handleAddManualItem "Leite" "4,5" "" 0 =
              Some (mkItem "u0" "Leite" (45 # 10) (Some "leite") None None 1)) by (vm_compute; reflexivity).
  split; [exact H|].
  apply (manual_item_fulfils_list_entry "Leite" "4,5" "" 0 _ [] [mkListItem "l0" "Leite" false]
           (mkListItem "l0" "Leite" false) H (or_introl eq_refl) eq_refl).
Defined.

(** Toggling the same shopping-list id twice gives back the list. *)
Theorem handleToggleListItem_involutive (i : string) (shoppingList : list ShoppingListItem) :
  handleToggleListItem i (handleToggleListItem i shoppingList) = shoppingList.
Proof.
  unfold handleToggleListItem. rewrite map_map.
  induction shoppingList as [|[xi xn xc] L IH]; simpl; [reflexivity|].
  rewrite IH. destruct (String.eqb xi i) eqn:E; simpl; rewrite ?E, ?negb_involutive; reflexivity.
Qed.

(** ** [geminiService] *)

Lemma las_app s1 s2 : las (s1 ++ s2) = (las s1 ++ las s2)%list.
Proof. induction s1 as [|c s1 IH]; simpl; [reflexivity|]. unfold las in *. rewrite IH. reflexivity. Qed.

Lemma split_comma_app x r h t :
  ~ In ","%char x -> split_comma r = h :: t -> split_comma (x ++ r) = (x ++ h)%list :: t.
Proof.
  intros Hx Hr. induction x as [|c x IH]; simpl; [exact Hr|].
  assert (Hc : Ascii.eqb c ","%char = false).
  { apply Ascii.eqb_neq. intros ->. apply Hx. left. reflexivity. }
  rewrite Hc, IH by (intros H; apply Hx; right; exact H). reflexivity.
Qed.

Lemma split_comma_none x : ~ In ","%char x -> split_comma x = [x].
Proof.
  intros Hx. rewrite <- (app_nil_r x) at 1.
  rewrite (split_comma_app x [] [] []) by (exact Hx || reflexivity). rewrite app_nil_r. reflexivity.
Qed.

(** [fileToBase64] hands over exactly the base64 payload of the data URL
    the reader produces, provided the file's mime type contains no comma
    (the base64 alphabet has none). *)
Theorem fileToBase64_payload (File : Type) (readAsDataURL : File -> option string) (f : File)
  (mime payload : string) (Hmime : ~ In ","%char (las mime)) (Hpay : ~ In ","%char (las payload))
  (Hread : readAsDataURL f = Some (dataURL mime payload)) :
  fileToBase64 File readAsDataURL f = Ok (Some payload).
Proof.
  unfold fileToBase64. rewrite Hread. f_equal. unfold base64Part, dataURL.
  rewrite !las_app.
  change (las ";base64,") with (las ";base64" ++ [","%char])%list.
  set (x := (las "data:" ++ las mime ++ las ";base64")%list).
  assert (Hx : ~ In ","%char x).
  { subst x. rewrite !in_app_iff. intros [H|[H|H]]; [|exact (Hmime H)|];
      simpl in H; repeat (destruct H as [H|H]; [discriminate H|]); exact H. }
  replace (las "data:" ++ las mime ++ (las ";base64" ++ [","%char]) ++ las payload)%list
    with (x ++ ","%char :: las payload)%list by (subst x; rewrite <- !app_assoc; reflexivity).
  rewrite (split_comma_app x (","%char :: las payload) [] [las payload]).
  - simpl. unfold las. rewrite string_of_list_ascii_of_string. reflexivity.
  - exact Hx.
  - simpl. rewrite split_comma_none by exact Hpay. reflexivity.
Qed.

Lemma fileToBase64_payload_witness :
  ~ In ","%char (las "image/png") /\ ~ In ","%char (las "QUJD") /\
  fileToBase64 unit (fun _ => Some (dataURL "image/png" "QUJD")) tt = Ok (Some "QUJD").
Proof.
  assert (H1 : ~ In ","%char (las "image/png")).
  { simpl. intros H. repeat (destruct H as [H|H]; [discriminate H|]). exact H. }
  assert (H2 : ~ In ","%char (las "QUJD")).
  { simpl. intros H. repeat (destruct H as [H|H]; [discriminate H|]). exact H. }
  split; [exact H1|]. split; [exact H2|].
  apply (fileToBase64_payload unit (fun _ => Some (dataURL "image/png" "QUJD")) tt
           "image/png" "QUJD" H1 H2 eq_refl).
Defined.

(** Every error [analyzeProductImage] raises carries one of two messages:
    the missing-key message when the key is empty, and otherwise the generic
    "Falha ao analisar ..." message; in particular the "Não foi possível
    obter resposta da IA." error thrown inside the [try] never escapes. *)
Theorem analyzeProductImage_errors (File : Type) (fileType : File -> string)
  (readAsDataURL : File -> option string)
  (generateContent : Request -> string -> option string -> Outcome (option string))
  (parseScanned : string -> Outcome ScannedItem) (apiKey : string) (f : File) (m : string)
  (H : analyzeProductImage File fileType readAsDataURL generateContent parseScanned apiKey f = Thrown m) :
  ((apiKey = "" /\ m = msgNoKey) \/ (apiKey <> "" /\ m = msgAnalysisFailed)) /\ m <> msgNoText.
Proof.
  unfold analyzeProductImage, fileToBase64 in H.
  destruct (String.eqb apiKey "") eqn:Ek.
  - apply String.eqb_eq in Ek. injection H as <-. split; [left; auto|discriminate].
  - apply String.eqb_neq in Ek. destruct (readAsDataURL f); [|discriminate].
    destruct (analyzeTry _ _ _ _ _ _); try discriminate; injection H as <-;
      (split; [right; auto|discriminate]).
Qed.

Lemma analyzeProductImage_errors_witness :
  analyzeProductImage unit (fun _ => "image/png") (fun _ => Some (dataURL "image/png" "QUJD"))
    (fun _ _ _ => Ok None) (fun _ => ReaderError) "key" tt = Thrown msgAnalysisFailed /\
  msgAnalysisFailed <> msgNoText.
Proof.
  assert (H : analyzeProductImage unit (fun _ => "image/png") (fun _ => Some (dataURL "image/png" "QUJD"))
                (fun _ _ _ => Ok None) (fun _ => ReaderError) "key" tt = Thrown msgAnalysisFailed)
    by reflexivity.
  split; [exact H|].
  apply (analyzeProductImage_errors unit _ _ _ _ "key" tt msgAnalysisFailed H).
Defined.

(** A model response without text is treated differently by the two
    service functions: [extractShoppingList] resolves with the empty list
    (so the import adds nothing and shows no error), while
    [analyzeProductImage] rejects with the generic failure message. *)
Theorem empty_response_list_vs_product (File : Type) (fileType : File -> string)
  (readAsDataURL : File -> option string)
  (generateContent : Request -> string -> option string -> Outcome (option string))
  (parseScanned : string -> Outcome ScannedItem) (parseNames : string -> Outcome (list string))
  (apiKey : string) (f : File) (r : string) (Hk : apiKey <> "")
  (Hr : readAsDataURL f = Some r)
  (Hl : generateContent ListRequest (fileType f) (base64Part r) = Ok None \/
        generateContent ListRequest (fileType f) (base64Part r) = Ok (Some ""))
  (Hp : generateContent ProductRequest (fileType f) (base64Part r) = Ok None \/
        generateContent ProductRequest (fileType f) (base64Part r) = Ok (Some "")) :
  extractShoppingList File fileType readAsDataURL generateContent parseNames apiKey f = Ok [] /\
  (forall st, handleImportList
                (extractShoppingList File fileType readAsDataURL generateContent parseNames apiKey f)
                st = st) /\
  analyzeProductImage File fileType readAsDataURL generateContent parseScanned apiKey f =
    Thrown msgAnalysisFailed.
Proof.
  assert (Ek : String.eqb apiKey "" = false) by (apply String.eqb_neq, Hk).
  assert (He : extractShoppingList File fileType readAsDataURL generateContent parseNames apiKey f = Ok []).
  { unfold extractShoppingList, fileToBase64, extractTry. rewrite Ek, Hr.
    destruct Hl as [Hl|Hl]; rewrite Hl; reflexivity. }
  split; [exact He|]. split.
  - intros [[its sd stt pr] L]. rewrite He. unfold handleImportList, with_seed. simpl.
    rewrite Nat.add_0_r, app_nil_r. reflexivity.
  - unfold analyzeProductImage, fileToBase64, analyzeTry. rewrite Ek, Hr.
    destruct Hp as [Hp|Hp]; rewrite Hp; reflexivity.
Qed.

Lemma empty_response_list_vs_product_witness :
  extractShoppingList unit (fun _ => "image/png") (fun _ => Some (dataURL "image/png" "QUJD"))
    (fun _ _ _ => Ok None) (fun _ => ReaderError) "key" tt = Ok [].
Proof.
  apply (empty_response_list_vs_product unit (fun _ => "image/png")
           (fun _ => Some (dataURL "image/png" "QUJD")) (fun _ _ _ => Ok None)
           (fun _ => ReaderError) (fun _ => ReaderError) "key" tt (dataURL "image/png" "QUJD"));
    [discriminate|reflexivity|left; reflexivity|left; reflexivity].
Defined.

(** Without an API key nothing is ever added: a non-empty scan batch leaves
    the cart and the id counter as they were and ends with the batch error
    status, and a list import leaves the shopping list as it was. *)
Theorem missing_api_key_adds_nothing (File : Type) (fileType : File -> string)
  (readAsDataURL : File -> option string)
  (generateContent : Request -> string -> option string -> Outcome (option string))
  (parseScanned : string -> Outcome ScannedItem) (parseNames : string -> Outcome (list string))
  (files : list File) (f : File) (st : FullState) (Hne : files <> []) :
  let an := fun x => outcome_opt (analyzeProductImage File fileType readAsDataURL generateContent
                                    parseScanned "" x) in
  items (fst (handleFileChange File an files (app st))) = items (app st) /\
  seed (fst (handleFileChange File an files (app st))) = seed (app st) /\
  status (fst (handleFileChange File an files (app st))) = mkStatus false (Some batchError) /\
  handleImportList (extractShoppingList File fileType readAsDataURL generateContent parseNames "" f) st
    = st.
Proof.
  intros an.
  assert (Hs : forall fs, successes File an fs = []) by (induction fs; [reflexivity|exact IHfs]).
  assert (Hf : forall fs, fs <> [] -> existsb (failed File an) fs = true).
  { intros [|x fs] H; [congruence|reflexivity]. }
  unfold handleFileChange. destruct files as [|x fs]; [congruence|].
  rewrite batchLoop_eq, Hs, Hf by discriminate. simpl. auto.
Qed.

Lemma missing_api_key_adds_nothing_witness :
  items (fst (handleFileChange unit
    (fun x => outcome_opt (analyzeProductImage unit (fun _ => "image/png")
                             (fun _ => Some (dataURL "image/png" "QUJD"))
                             (fun _ _ _ => Ok (Some "{}")) (fun _ => Ok (mkScanned "Rice" 10 None None None))
                             "" x)) [tt] initialState)) = [].
Proof.
  apply (missing_api_key_adds_nothing unit (fun _ => "image/png")
           (fun _ => Some (dataURL "image/png" "QUJD")) (fun _ _ _ => Ok (Some "{}"))
           (fun _ => Ok (mkScanned "Rice" 10 None None None)) (fun _ => ReaderError) [tt] tt
           (mkFull initialState [])).
  discriminate.
Defined.

(** ** Cart operations and totals *)

Lemma handleUpdateItem_at l1 l2 it u :
  ~ In (id it) (map id l1) -> ~ In (id it) (map id l2) ->
  handleUpdateItem (id it) u (l1 ++ it :: l2) = (l1 ++ merge it u :: l2)%list.
Proof.
  intros H1 H2. rewrite handleUpdateItem_app. simpl.
  rewrite handleUpdateItem_absent by exact H1. rewrite String.eqb_refl.
  rewrite handleUpdateItem_absent by exact H2. reflexivity.
Qed.

Lemma itemCount_acc l : forall a,
  fold_left (fun sum item => (sum + quantity item)%Z) l a = (a + itemCount l)%Z.
Proof.
  unfold itemCount. induction l as [|x l IH]; intros a; cbn [fold_left]; [lia|].
  rewrite (IH (a + quantity x)%Z), (IH (0 + quantity x)%Z). lia.
Qed.

Lemma totalCost_acc l : forall a,
  fold_left (fun sum item => sum + price item * inject_Z (quantity item)) l a == a + totalCost l.
Proof.
  unfold totalCost. induction l as [|x l IH]; intros a; cbn [fold_left]; [ring|].
  rewrite (IH (a + _)), (IH (0 + _)). ring.
Qed.

Lemma itemCount_mid l1 x l2 :
  itemCount (l1 ++ x :: l2) = (itemCount l1 + quantity x + itemCount l2)%Z.
Proof. unfold itemCount at 1. rewrite fold_left_app. simpl. rewrite itemCount_acc. reflexivity. Qed.

Lemma totalCost_mid l1 x l2 :
  totalCost (l1 ++ x :: l2) == totalCost l1 + price x * inject_Z (quantity x) + totalCost l2.
Proof. unfold totalCost at 1. rewrite fold_left_app. simpl. rewrite totalCost_acc. reflexivity. Qed.

(** Pressing "+" on a row raises the item count by exactly 1 and the total
    cost by exactly the entry's price (ids being distinct). *)
Theorem handleIncrement_totals (items : list CartItem) (it : CartItem)
  (Hids : NoDup (map id items)) (Hin : In it items) :
  itemCount (handleIncrement it items) = (itemCount items + 1)%Z /\
  totalCost (handleIncrement it items) == totalCost items + price it.
Proof.
  destruct (split_unique_id items it Hids Hin) as (l1 & l2 & -> & H1 & H2).
  unfold handleIncrement. rewrite handleUpdateItem_at by assumption.
  rewrite !itemCount_mid, !totalCost_mid. split.
  - destruct it; simpl. lia.
  - destruct it; simpl. rewrite inject_Z_plus. ring.
Qed.

Lemma handleIncrement_totals_witness :
  NoDup (map id [milk; item60]) /\
  itemCount (handleIncrement milk [milk; item60]) = 3%Z.
Proof.
  assert (Hn : NoDup (map id [milk; item60])).
  { simpl. constructor; [simpl; intros [H|[]]; discriminate H|]. constructor; [intros []|constructor]. }
  split; [exact Hn|].
  destruct (handleIncrement_totals [milk; item60] milk Hn (or_introl eq_refl)) as [H _].
  rewrite H. reflexivity.
Defined.

(** Pressing "+" and then "-" on the same row (which then shows the updated
    entry) gives back the cart, when the quantity was at least 1 and ids
    are distinct. *)
Theorem increment_decrement_roundtrip (items : list CartItem) (it : CartItem)
  (Hids : NoDup (map id items)) (Hin : In it items) (Hq : (1 <= quantity it)%Z) :
  handleDecrement (merge it (quantityPatch (quantity it + 1))) (handleIncrement it items) = items.
Proof.
  destruct (split_unique_id items it Hids Hin) as (l1 & l2 & -> & H1 & H2).
  unfold handleIncrement. rewrite handleUpdateItem_at by assumption.
  set (it' := merge it (quantityPatch (quantity it + 1))).
  assert (Eid : id it' = id it) by reflexivity.
  assert (Eq : quantity it' = (quantity it + 1)%Z) by reflexivity.
  unfold handleDecrement. rewrite Eq.
  replace ((quantity it + 1 >? 1)%Z) with true by (symmetry; apply Z.gtb_lt; lia).
  rewrite handleUpdateItem_at by (rewrite Eid; assumption).
  f_equal. f_equal. subst it'. destruct it; unfold merge; simpl. f_equal. lia.
Qed.

Lemma increment_decrement_roundtrip_witness :
  NoDup (map id [milk]) /\
  handleDecrement (merge milk (quantityPatch (quantity milk + 1))) (handleIncrement milk [milk]) = [milk].
Proof.
  assert (Hn : NoDup (map id [milk])) by (constructor; [intros []|constructor]).
  split; [exact Hn|].
  apply (increment_decrement_roundtrip [milk] milk Hn (or_introl eq_refl)). simpl. lia.
Defined.

(** ** Comparison displays *)

Lemma isort_nonempty l : l <> [] -> isort l <> [].
Proof.
  intros H E. apply H. apply Permutation_nil. rewrite <- E. apply isort_perm.
Qed.

(** Rendering the "Comparar Preços" button fails exactly when computing the
    groups throws (a comparable entry whose normalised category is inherited
    from [Object.prototype]); otherwise the button is shown exactly when some
    cart entry has a truthy measure value and a truthy unit. Every group the
    modal lists is non-empty, so its [grpItems.length === 0] guard never
    fires. *)
Theorem showCompareButton_spec (items : list CartItem) :
  showCompareButton items =
    (if groupingThrows items then None else Some (existsb comparable items)) /\
  (forall G, comparisonGroupsJS items = Some G -> forall k g, In (k, g) G -> g <> []).
Proof.
  assert (Hne : forall k g, In (k, g) (comparisonGroups items) -> g <> []).
  { intros k g H. apply comparisonGroups_In in H as [-> Hm]. apply isort_nonempty, Hm. }
  split; [|intros G HG; apply comparisonGroupsJS_Some in HG as [-> _]; exact Hne].
  unfold showCompareButton. rewrite comparisonGroupsJS_eq.
  destruct (groupingThrows items); [reflexivity|]. f_equal.
  destruct (existsb comparable items) eqn:E.
  - apply existsb_exists in E as (i & Hi & Hc).
    destruct (comparable_in_own_group items i Hi Hc) as (g & Hg & _).
    destruct (comparisonGroups items); [destruct Hg|reflexivity].
  - destruct (comparisonGroups items) as [|[k g] G] eqn:EG; [reflexivity|].
    exfalso. assert (Hg : In (k, g) (comparisonGroups items)) by (rewrite EG; left; reflexivity).
    pose proof (Hne k g (or_introl eq_refl)) as Hg'. destruct g as [|x g]; [congruence|].
    destruct (comparisonGroups_member items k (x :: g) x Hg (or_introl eq_refl)) as (Hx & Hc & _).
    assert (existsb comparable items = true) by (apply existsb_exists; eauto). congruence.
Qed.

Lemma bestValueIds_map G : bestValueIds G = map headId (filter bigGroup G).
Proof.
  induction G as [|[k l] G IH]; [reflexivity|].
  unfold bestValueIds. simpl. rewrite bestValueIds_acc. fold (bestValueIds G). rewrite IH.
  destruct l as [|x [|y r]]; reflexivity.
Qed.

Lemma count_members (B : list string) (items : list CartItem) :
  NoDup (map id items) -> NoDup B -> incl B (map id items) ->
  List.length (filter (fun it => existsb (String.eqb (id it)) B) items) = List.length B.
Proof.
  intros HN HB Hincl.
  assert (E : List.length (filter (fun it => existsb (String.eqb (id it)) B) items) =
              List.length (filter (fun s => existsb (String.eqb s) B) (map id items))).
  { clear. induction items as [|x l IH]; simpl; [reflexivity|].
    destruct (existsb _ B); simpl; rewrite IH; reflexivity. }
  rewrite E. apply Permutation_length. apply NoDup_Permutation.
  - apply NoDup_filter, HN.
  - exact HB.
  - intros s. rewrite filter_In, existsb_exists. split.
    + intros [_ (s' & Hs' & Es)]. apply String.eqb_eq in Es. subst. exact Hs'.
    + intros Hs. split; [apply Hincl, Hs|]. exists s. split; [exact Hs|apply String.eqb_refl].
Qed.

(** With distinct ids, the number of cart entries flagged best value (the
    rows that get the "Melhor Custo" badge in the cart and the
    " (Melhor Custo)" suffix in the PDF table) equals the number of
    comparison groups holding at least two entries. *)
Theorem bestValue_count (items : list CartItem) (Hids : NoDup (map id items)) :
  List.length (filter (isBestValue items) items) =
  List.length (filter bigGroup (comparisonGroups items)).
Proof.
  set (G := comparisonGroups items).
  unfold isBestValue. fold G. rewrite count_members; [rewrite bestValueIds_map, length_map; reflexivity|exact Hids| |].
  - rewrite bestValueIds_map. apply NoDup_map_NoDup_ForallPairs.
    + intros [k1 g1] [k2 g2] H1 H2 E. apply filter_In in H1 as [H1 B1]. apply filter_In in H2 as [H2 B2].
      unfold bigGroup, headId in *. simpl in *.
      destruct g1 as [|x1 g1]; [discriminate B1|]. destruct g2 as [|x2 g2]; [discriminate B2|].
      destruct (comparisonGroups_member items k1 _ x1 H1 (or_introl eq_refl)) as (Hx1 & _ & K1).
      destruct (comparisonGroups_member items k2 _ x2 H2 (or_introl eq_refl)) as (Hx2 & _ & K2).
      assert (x1 = x2) by (apply (NoDup_map_inj id items); assumption). subst x2.
      subst k1 k2.
      rewrite (comparisonGroups_unique items (catKey x1) _ _ H1 H2). reflexivity.
    + apply NoDup_filter. eapply NoDup_map_inv. apply comparisonGroups_keys.
  - rewrite bestValueIds_map. intros s Hs. apply in_map_iff in Hs as ([k g] & <- & Hg).
    apply filter_In in Hg as [Hg B]. unfold bigGroup, headId in *. simpl in *.
    destruct g as [|x g]; [discriminate B|].
    destruct (comparisonGroups_member items k _ x Hg (or_introl eq_refl)) as (Hx & _).
    apply in_map, Hx.
Qed.

Lemma bestValue_count_witness :
  NoDup (map id [riceB; riceA; pasteA]) /\
  List.length (filter (isBestValue [riceB; riceA; pasteA]) [riceB; riceA; pasteA]) = 1%nat.
Proof.
  assert (Hn : NoDup (map id [riceB; riceA; pasteA])).
  { simpl. constructor; [simpl; intros [H|[H|[]]]; discriminate H|].
    constructor; [simpl; intros [H|[]]; discriminate H|]. constructor; [intros []|constructor]. }
  split; [exact Hn|]. rewrite (bestValue_count _ Hn). vm_compute. reflexivity.
Defined.

(** The per-unit price a row shows ([pricePerUnitDisplay]) and the one the
    comparison modal shows divide the price by the raw measure value: for
    'kg' and 'l' entries this is 1000 times the key the groups are sorted
    by ([getBasePrice]), for other units it is that key. The row shows no
    per-unit price when the measure value is not positive or the unit is
    empty. *)
Theorem pricePerUnitDisplay_spec (it : CartItem) (v : Q) (u : string)
  (Hv : measureValue it = Some v) (Hu : measureUnit it = Some u) :
  (0 < v -> u <> "" ->
   pricePerUnitDisplay it = Some (formatCurrency (modalUnitPrice it) ++ las "/" ++ las u)%list /\
   modalUnitPrice it == (if String.eqb u "kg" || String.eqb u "l" then 1000 else 1) * getBasePrice it) /\
  (v <= 0 \/ u = "" -> pricePerUnitDisplay it = None).
Proof.
  unfold pricePerUnitDisplay, modalUnitPrice, getBasePrice, unit_is, truthy_num, truthy_str.
  rewrite Hv, Hu. split.
  - intros Hp Hne.
    assert (Hv0 : Qeq_bool v 0 = false).
    { apply not_true_iff_false. intros E. apply Qeq_bool_iff in E. rewrite E in Hp. discriminate Hp. }
    assert (Hle : Qle_bool v 0 = false).
    { apply not_true_iff_false. intros E. apply Qle_bool_iff in E. apply (Qlt_not_le _ _ Hp E). }
    assert (Hu0 : String.eqb u "" = false) by (apply String.eqb_neq, Hne).
    rewrite Hv0, Hle, Hu0. simpl. split; [reflexivity|].
    assert (Hvnz : ~ v == 0) by (intros E; rewrite E in Hp; discriminate Hp).
    destruct (String.eqb u "kg") eqn:Ekg; destruct (String.eqb u "l") eqn:El; simpl.
    + apply String.eqb_eq in Ekg, El. congruence.
    + field. exact Hvnz.
    + field. exact Hvnz.
    + field. exact Hvnz.
  - intros [Hle | Hu0].
    + assert (E : Qle_bool v 0 = true) by (apply Qle_bool_iff, Hle).
      rewrite E. rewrite !andb_false_r. reflexivity.
    + subst u. rewrite andb_false_r. simpl. reflexivity.
Qed.

Lemma pricePerUnitDisplay_spec_witness :
  pricePerUnitDisplay riceB = Some (formatCurrency (modalUnitPrice riceB) ++ las "/" ++ las "kg")%list /\
  modalUnitPrice riceB == 1000 * getBasePrice riceB.
Proof.
  apply (pricePerUnitDisplay_spec riceB 1 "kg" eq_refl eq_refl); [reflexivity|discriminate].
Defined.

(** ** Budget and PDF summary *)

(** With a positive budget and a cart total that is not negative, the
    progress bar's width [budgetPercentage] lies between 0 and 100; it is
    exactly 100 when the cart is over budget, and [total / budget * 100]
    otherwise. *)
Theorem budgetPercentage_bounds (b total : Q) (Hb : 0 < b) (Ht : 0 <= total) :
  0 <= budgetPercentage (Some b) total <= 100 /\
  (isOverBudget (Some b) total = true -> budgetPercentage (Some b) total == 100) /\
  (isOverBudget (Some b) total = false -> budgetPercentage (Some b) total == total / b * 100).
Proof.
  assert (Hb0 : Qeq_bool b 0 = false).
  { apply not_true_iff_false. intros E. apply Qeq_bool_iff in E. rewrite E in Hb. discriminate Hb. }
  unfold budgetPercentage, budget_truthy, isOverBudget. rewrite Hb0.
  assert (Hx0 : 0 <= total / b * 100).
  { apply Qmult_le_0_compat; [|discriminate]. apply Qle_shift_div_l; [exact Hb|].
    rewrite Qmult_0_l. exact Ht. }
  destruct (Qle_bool total b) eqn:E; simpl.
  - apply Qle_bool_iff in E.
    assert (Hx : total / b * 100 <= 100).
    { rewrite <- (Qmult_1_l 100) at 2. apply Qmult_le_compat_r; [|discriminate].
      apply Qle_shift_div_r; [exact Hb|]. rewrite Qmult_1_l. exact E. }
    replace (Qle_bool (total / b * 100) 100) with true by (symmetry; apply Qle_bool_iff, Hx).
    split; [split; assumption|]. split; [discriminate|intros _; reflexivity].
  - assert (E' : b < total).
    { apply Qnot_le_lt. intros H. apply Qle_bool_iff in H. congruence. }
    assert (Hx : 100 < total / b * 100).
    { rewrite <- (Qmult_1_l 100) at 1. apply Qmult_lt_r; [reflexivity|].
      apply Qlt_shift_div_l; [exact Hb|]. rewrite Qmult_1_l. exact E'. }
    replace (Qle_bool (total / b * 100) 100) with false.
    + split; [split; discriminate|]. split; [intros _; reflexivity|discriminate].
    + symmetry. apply not_true_iff_false. intros H. apply Qle_bool_iff in H.
      apply (Qlt_not_le _ _ Hx H).
Qed.

Lemma budgetPercentage_bounds_witness :
  0 < 50 /\ 0 <= totalCost [item60] /\ budgetPercentage (Some 50) (totalCost [item60]) == 100.
Proof.
  assert (H1 : 0 < 50) by reflexivity. assert (H2 : 0 <= totalCost [item60]) by (vm_compute; discriminate).
  split; [exact H1|]. split; [exact H2|].
  destruct (budgetPercentage_bounds 50 (totalCost [item60]) H1 H2) as (_ & H & _).
  apply H. reflexivity.
Defined.

Lemma roundCents_Qeq a b : a == b -> roundCents a = roundCents b.
Proof.
  intros E. unfold roundCents.
  assert (Es : Qle_bool 0 a = Qle_bool 0 b).
  { destruct (Qle_bool 0 a) eqn:Ea, (Qle_bool 0 b) eqn:Eb; try reflexivity;
      apply Qle_bool_iff in Ea || apply Qle_bool_iff in Eb; rewrite E in * || rewrite <- E in *;
      apply Qle_bool_iff in Ea || apply Qle_bool_iff in Eb; congruence. }
  assert (F1 : Qfloor (a * 100 + (1 # 2)) = Qfloor (b * 100 + (1 # 2))) by (rewrite E; reflexivity).
  assert (F2 : Qfloor (- a * 100 + (1 # 2)) = Qfloor (- b * 100 + (1 # 2))) by (rewrite E; reflexivity).
  rewrite Es, F1, F2. reflexivity.
Qed.

Lemma formatCurrency_Qeq a b : a == b -> formatCurrency a = formatCurrency b.
Proof.
  intros E. unfold formatCurrency. rewrite (roundCents_Qeq a b E).
  replace (Qle_bool 0 a) with (Qle_bool 0 b); [reflexivity|].
  destruct (Qle_bool 0 a) eqn:Ea, (Qle_bool 0 b) eqn:Eb; try reflexivity.
  - apply Qle_bool_iff in Ea. rewrite E in Ea. apply Qle_bool_iff in Ea. congruence.
  - apply Qle_bool_iff in Eb. rewrite <- E in Eb. apply Qle_bool_iff in Eb. congruence.
Qed.

(** The balance line of the PDF summary agrees with the cart's
    over-budget flag: with a budget set it reads "Ultrapassou: " and the
    overrun exactly when [isOverBudget] holds, and "Saldo / Economia: " and
    the amount left otherwise; with no budget there is no balance line. *)
Theorem finalizeSummaryLine_spec (budget : option Q) (total : Q) :
  finalizeSummaryLine budget total =
  match budget with
  | Some b =>
      if isOverBudget budget total
      then Some (las "Ultrapassou: " ++ formatCurrency (total - b))%list
      else Some (las "Saldo / Economia: " ++ formatCurrency (b - total))%list
  | None => None
  end.
Proof.
  destruct budget as [b|]; [|reflexivity]. unfold finalizeSummaryLine, finalizeDiff, isOverBudget.
  destruct (Qle_bool total b) eqn:E; cbn [negb].
  - apply Qle_bool_iff in E.
    replace (Qle_bool 0 (b - total)) with true; [reflexivity|].
    symmetry. apply Qle_bool_iff. apply (Qplus_le_l _ _ total). ring_simplify. exact E.
  - assert (E' : b < total).
    { apply Qnot_le_lt. intros H. apply Qle_bool_iff in H. congruence. }
    replace (Qle_bool 0 (b - total)) with false.
    + rewrite (formatCurrency_Qeq (Qabs (b - total)) (total - b)); [reflexivity|].
      rewrite Qabs_neg.
      * ring.
      * apply (Qplus_le_l _ _ total). ring_simplify. apply Qlt_le_weak, E'.
    + symmetry. apply not_true_iff_false. intros H. apply Qle_bool_iff in H.
      apply (Qplus_le_l _ _ total) in H. ring_simplify in H. apply (Qlt_not_le _ _ E' H).
Qed.

(** [formatCurrency] of an amount that is not negative shows, its digits
    read together, the amount in centavos rounded to the nearest integer
    (halves up): within half a centavo of the amount. *)
Theorem formatCurrency_rounds (v : Q) (Hv : 0 <= v) :
  digits_value 0 (filter is_digit (formatCurrency v)) = Z.to_nat (roundCents v) /\
  - (1 # 2) <= v * 100 - inject_Z (roundCents v) /\ v * 100 - inject_Z (roundCents v) < 1 # 2.
Proof.
  split; [apply formatCurrency_digits, Hv|].
  unfold roundCents. replace (Qle_bool 0 v) with true by (symmetry; apply Qle_bool_iff, Hv).
  pose proof (Qfloor_le (v * 100 + (1 # 2))) as H1.
  pose proof (Qlt_floor (v * 100 + (1 # 2))) as H2. rewrite inject_Z_plus in H2.
  set (f := inject_Z (Qfloor (v * 100 + (1 # 2)))) in *. split.
  - apply (Qplus_le_l _ _ (f + (1 # 2))). ring_simplify. ring_simplify in H1. exact H1.
  - apply (Qplus_lt_l _ _ (f + (1 # 2))). ring_simplify. ring_simplify in H2.
    exact H2.
Qed.

Lemma formatCurrency_rounds_witness :
  0 <= 333 # 1000 /\ digits_value 0 (filter is_digit (formatCurrency (333 # 1000))) = 33%nat.
Proof.
  assert (H : 0 <= 333 # 1000) by discriminate. split; [exact H|].
  destruct (formatCurrency_rounds (333 # 1000) H) as [E _]. rewrite E. reflexivity.
Defined.

(** ** Shopping-list import *)


(** ** Budget dialog *)

Lemma digit_not_ws c : is_digit c = true -> is_ws c = false.
Proof.
  unfold is_digit, is_ws. intros H. apply andb_true_iff in H as [H1 H2].
  apply Nat.leb_le in H1, H2.
  destruct (nat_of_ascii c =? 32)%nat eqn:E; [apply Nat.eqb_eq in E; lia|].
  destruct ((9 <=? nat_of_ascii c)%nat && (nat_of_ascii c <=? 13)%nat) eqn:F; [|reflexivity].
  apply andb_true_iff in F as [_ F]. apply Nat.leb_le in F. lia.
Qed.

Lemma nat_digits_nonempty m : nat_digits m <> [].
Proof.
  unfold nat_digits. cbn [digits_fuel]. destruct (m <? 10)%nat; [discriminate|].
  intros H. apply app_eq_nil in H as [_ H]. discriminate H.
Qed.

Lemma parseFloat_digits ds : ds <> [] -> Forall (fun c => is_digit c = true) ds ->
  parseFloat (string_of_list_ascii ds) = Some (decimal_value ds []).
Proof.
  intros Hne Hd. destruct ds as [|c r]; [congruence|].
  assert (Hc : is_digit c = true) by (inversion Hd; assumption).
  assert (Hs : span_digits (c :: r) = (c :: r, [])).
  { rewrite <- (app_nil_r (c :: r)) at 1. apply span_digits_app; [exact Hd|exact I]. }
  unfold parseFloat. rewrite list_ascii_of_string_of_list_ascii.
  cbn [drop_ws]. rewrite (digit_not_ws c Hc).
  destruct c as [[] [] [] [] [] [] [] []]; try discriminate Hc;
    cbv beta iota zeta; rewrite Hs; reflexivity.
Qed.

Lemma parseFloat_neg_digits ds : ds <> [] -> Forall (fun c => is_digit c = true) ds ->
  parseFloat (string_of_list_ascii ("-"%char :: ds)) = Some (- decimal_value ds []).
Proof.
  intros Hne Hd. destruct ds as [|c r]; [congruence|].
  assert (Hs : span_digits (c :: r) = (c :: r, [])).
  { rewrite <- (app_nil_r (c :: r)) at 1. apply span_digits_app; [exact Hd|exact I]. }
  unfold parseFloat. rewrite list_ascii_of_string_of_list_ascii.
  cbv beta iota zeta. cbn [drop_ws]. change (is_ws "-"%char) with false. cbv beta iota zeta. rewrite Hs. reflexivity.
Qed.

Lemma replace_first_comma_digits l : Forall (fun c => c <> ","%char) l ->
  replace_first_comma (string_of_list_ascii l) = string_of_list_ascii l.
Proof.
  induction 1 as [|c l Hc Hl IH]; [reflexivity|]. simpl.
  replace (Ascii.eqb c ","%char) with false by (symmetry; apply Ascii.eqb_neq, Hc).
  rewrite IH. reflexivity.
Qed.

Lemma digits_no_comma m : Forall (fun c => c <> ","%char) (nat_digits m).
Proof.
  eapply Forall_impl; [|apply nat_digits_digits]. intros c Hc E. subst c. discriminate Hc.
Qed.

Lemma decimal_value_nat m : decimal_value (nat_digits m) [] == inject_Z (Z.of_nat m).
Proof. unfold decimal_value. rewrite nat_digits_value. simpl. ring. Qed.

(** Opening the budget dialog fills its field with [budget.toString()]
    only when the budget is truthy; confirming the dialog without editing
    therefore keeps a non-zero whole budget (negative ones included), but
    turns a budget of 0 into no budget at all. *)
Theorem budget_dialog_roundtrip (n : Z) :
  exists s, openBudgetModal (Some (inject_Z n)) = Some s /\
  (n = 0%Z -> handleSetBudget s = Some None) /\
  (n <> 0%Z -> exists v, handleSetBudget s = Some (Some v) /\ v == inject_Z n).
Proof.
  unfold openBudgetModal, budget_truthy.
  destruct (Qeq_bool (inject_Z n) 0) eqn:E0.
  - exists "". split; [reflexivity|]. split; [intros _; reflexivity|].
    intros Hn. exfalso. apply Qeq_bool_iff in E0. apply Hn.
    apply inject_Z_injective. exact E0.
  - assert (Hred : Qred (inject_Z n) = inject_Z n).
    { apply Qcanon.Qred_identity. simpl. apply Z.gcd_1_r. }
    unfold numberToString. rewrite Hred. simpl (Zpos (Qden (inject_Z n)) =? 1)%Z.
    cbv iota. eexists. split; [reflexivity|]. split.
    { intros ->. discriminate E0. }
    intros Hn. unfold handleSetBudget, Z_digits. simpl Qnum.
    destruct (n <? 0)%Z eqn:En.
    + rewrite replace_first_comma_digits by (constructor; [discriminate|apply digits_no_comma]).
      rewrite parseFloat_neg_digits by (apply nat_digits_nonempty || apply nat_digits_digits).
      simpl String.eqb. eexists. split; [reflexivity|].
      rewrite decimal_value_nat. rewrite Z2Nat.id by lia.
      rewrite <- inject_Z_opp. rewrite Z.opp_involutive. reflexivity.
    + rewrite replace_first_comma_digits by apply digits_no_comma.
      rewrite parseFloat_digits by (apply nat_digits_nonempty || apply nat_digits_digits).
      replace (String.eqb (string_of_list_ascii (nat_digits (Z.to_nat n))) "") with false.
      * eexists. split; [reflexivity|]. rewrite decimal_value_nat, Z2Nat.id by lia. reflexivity.
      * destruct (nat_digits (Z.to_nat n)) eqn:Ed; [exfalso; eapply nat_digits_nonempty; exact Ed|].
        reflexivity.
Qed.

(** ** Ids in use stay distinct *)

Lemma uuidv4_inj a b : uuidv4 a = uuidv4 b -> a = b.
Proof.
  unfold uuidv4. intros H. injection H as H.
  apply (f_equal list_ascii_of_string) in H. rewrite !list_ascii_of_string_of_list_ascii in H.
  rewrite <- (nat_digits_value a), <- (nat_digits_value b), H. reflexivity.
Qed.

Definition ids_ok (sd : nat) (l : list string) : Prop := NoDup l /\ Forall (issued sd) l.

Lemma ids_ok_perm sd l l' : Permutation l l' -> ids_ok sd l -> ids_ok sd l'.
Proof.
  intros P [H1 H2]. split; [eapply Permutation_NoDup; eassumption|].
  rewrite Forall_forall in *. intros x Hx. apply H2. eapply Permutation_in; [symmetry|]; eassumption.
Qed.

Lemma ids_ok_fresh sd k l :
  ids_ok sd l -> ids_ok (sd + k) (map uuidv4 (seq sd k) ++ l).
Proof.
  intros [H1 H2]. split.
  - apply NoDup_app; [|exact H1|].
    + apply NoDup_map_NoDup_ForallPairs; [|apply seq_NoDup].
      intros a b _ _ E. apply uuidv4_inj, E.
    + intros s Hs Hl. apply in_map_iff in Hs as [j [<- Hj]]. apply in_seq in Hj.
      rewrite Forall_forall in H2. destruct (H2 _ Hl) as [k' [Hk' E]].
      apply uuidv4_inj in E. lia.
  - apply Forall_app. split.
    + apply Forall_forall. intros s Hs. apply in_map_iff in Hs as [j [<- Hj]].
      apply in_seq in Hj. exists j. split; [lia|reflexivity].
    + eapply Forall_impl; [|exact H2]. intros s [j [Hj E]]. exists j. split; [lia|exact E].
Qed.

Lemma ids_ok_filter {X} (f : X -> string) (p : X -> bool) sd l B :
  ids_ok sd (map f l ++ B) -> ids_ok sd (map f (filter p l) ++ B).
Proof.
  intros [H1 H2]. split.
  - clear H2. revert H1. induction l as [|x l IH]; simpl; intros H1; [exact H1|].
    inversion H1 as [|? ? Hn Hd]; subst. destruct (p x); [|apply IH, Hd].
    simpl. constructor; [|apply IH, Hd]. intros Hin. apply Hn.
    apply in_app_iff in Hin as [Hin|Hin]; apply in_app_iff; [left|right; exact Hin].
    apply in_map_iff in Hin as [y [E Hy]]. apply filter_In in Hy as [Hy _].
    apply in_map_iff. exists y. split; assumption.
  - rewrite Forall_forall in *. intros s Hs. apply H2.
    apply in_app_iff in Hs as [Hs|Hs]; apply in_app_iff; [left|right; exact Hs].
    apply in_map_iff in Hs as [y [E Hy]]. apply filter_In in Hy as [Hy _].
    apply in_map_iff. exists y. split; assumption.
Qed.

Lemma ids_ok_filter_r {X} (f : X -> string) (p : X -> bool) sd A l :
  ids_ok sd (A ++ map f l) -> ids_ok sd (A ++ map f (filter p l)).
Proof.
  intros H. apply (ids_ok_perm _ _ _ (Permutation_app_comm _ _)).
  apply ids_ok_filter. exact (ids_ok_perm _ _ _ (Permutation_app_comm _ _) H).
Qed.

Lemma newEntries_ids sd rs : map id (newEntries sd rs) = map uuidv4 (seq sd (List.length rs)).
Proof. revert sd; induction rs as [|r rs IH]; intros sd; simpl; [reflexivity|]. rewrite IH. reflexivity. Qed.

Lemma listEntries_ids sd names : map l_id (listEntries sd names) = map uuidv4 (seq sd (List.length names)).
Proof. revert sd; induction names as [|n ns IH]; intros sd; simpl; [reflexivity|]. rewrite IH. reflexivity. Qed.

Lemma handleUpdateItem_ids i u l : p_id u = None -> map id (handleUpdateItem i u l) = map id l.
Proof.
  intros Hu. unfold handleUpdateItem. rewrite map_map. apply map_ext. intros x.
  destruct (String.eqb (id x) i); [|reflexivity]. unfold merge. simpl. rewrite Hu. reflexivity.
Qed.

Lemma handleToggleListItem_ids i l : map l_id (handleToggleListItem i l) = map l_id l.
Proof.
  unfold handleToggleListItem. rewrite map_map. apply map_ext. intros x.
  destruct (String.eqb (l_id x) i); reflexivity.
Qed.

Lemma step_ids_ok a a' B : step a a' ->
  ids_ok (seed a) (map id (items a) ++ B) -> ids_ok (seed a') (map id (items a') ++ B).
Proof.
  intros Hs H. destruct Hs as [st File an files|st nm pr sz|st it Hin|st it Hin|st it n Hin|st i|st b].
  - unfold handleFileChange. destruct files as [|f fs]; [exact H|].
    rewrite batchLoop_eq. simpl items; simpl seed.
    rewrite map_app, newEntries_ids, <- app_assoc. apply ids_ok_fresh, H.
  - unfold addManual. destruct (handleAddManualItem nm pr sz (seed st)) as [it|] eqn:E; [|exact H].
    apply handleAddManualItem_fields in E as [Eid _]. simpl items; simpl seed.
    rewrite <- Nat.add_1_r. simpl map. rewrite Eid.
    exact (ids_ok_fresh _ 1 _ H).
  - cbn [items seed with_items]. unfold handleIncrement. rewrite handleUpdateItem_ids by reflexivity. exact H.
  - cbn [items seed with_items]. unfold handleDecrement. destruct (quantity it >? 1)%Z.
    + rewrite handleUpdateItem_ids by reflexivity. exact H.
    + apply ids_ok_filter, H.
  - cbn [items seed with_items]. unfold handleNameBlur. destruct (negb _); [|exact H].
    rewrite handleUpdateItem_ids by reflexivity. exact H.
  - apply ids_ok_filter, H.
  - unfold handleClearAll. destruct b; [|exact H]. simpl.
    destruct H as [H1 H2]. split; [eapply NoDup_app_remove_l; exact H1|].
    apply Forall_app in H2. apply H2.
Qed.

Lemma fstep_ids_ok st st' : fstep st st' ->
  ids_ok (seed (app st)) (allIds st) -> ids_ok (seed (app st')) (allIds st').
Proof.
  unfold allIds. intros Hs H. destruct Hs as [st a Ha|st nm|st i|st i|st o].
  - simpl. eapply step_ids_ok; eassumption.
  - unfold addListItem, handleAddShoppingListItem.
    destruct (String.eqb (trim nm) ""); [exact H|]. simpl.
    rewrite map_app. simpl map. rewrite <- Nat.add_1_r.
    apply (ids_ok_perm _ (map uuidv4 (seq (seed (app st)) 1) ++ (map id (items (app st)) ++ map l_id (shoppingList st)))).
    + simpl. rewrite app_assoc. apply Permutation_cons_append.
    + apply ids_ok_fresh, H.
  - simpl. rewrite handleToggleListItem_ids. exact H.
  - simpl. apply ids_ok_filter_r, H.
  - unfold handleImportList. destruct o as [names|msg|]; [|exact H|exact H]. simpl.
    rewrite map_app, listEntries_ids.
    apply (ids_ok_perm _ (map uuidv4 (seq (seed (app st)) (List.length names)) ++ (map id (items (app st)) ++ map l_id (shoppingList st)))).
    + rewrite (app_assoc (map id (items (app st)))). apply Permutation_app_comm.
    + apply ids_ok_fresh, H.
Qed.

(** In every state reachable from the empty cart and empty shopping list,
    through any cart action, any shopping-list action and list imports, the
    ids of the cart entries and of the shopping-list entries are pairwise
    distinct (also across the two lists), and every one was handed out by
    [uuidv4] before the current counter value: no action copies an id or
    changes one, so an id names one entry at most. *)
Theorem freachable_ids_unique (st : FullState) (Hr : freachable st) :
  NoDup (allIds st) /\ Forall (issued (seed (app st))) (allIds st).
Proof.
  induction Hr as [|st st' _ IH Hs].
  - split; constructor.
  - apply (fstep_ids_ok st st' Hs IH).
Qed.

Lemma freachable_ids_unique_witness :
  NoDup (allIds (addListItem "Leite" (mkFull milkState []))) /\
  Forall (issued (seed (app (addListItem "Leite" (mkFull milkState []))))) (allIds (addListItem "Leite" (mkFull milkState []))).
Proof.
  apply freachable_ids_unique.
  eapply freach_step; [|apply fstep_add].
  eapply freach_step; [apply freach_init|]. apply (fstep_cart (mkFull initialState []) milkState).
  apply step_manual.
Defined.

(** ** Editing a name *)

(** With distinct ids, leaving the name field of the row of [it] does
    nothing when the trimmed text equals the current name; otherwise it
    replaces the name of that entry alone by the text as typed, untrimmed,
    and keeps its other fields and every other entry in place. *)
Theorem handleNameBlur_spec (items : list CartItem) (it : CartItem) (tempName : string)
  (Hids : NoDup (map id items)) (Hin : In it items) :
  (trim tempName = productName it -> handleNameBlur it tempName items = items) /\
  (trim tempName <> productName it ->
   exists l1 l2, items = (l1 ++ it :: l2)%list /\
     handleNameBlur it tempName items =
     (l1 ++ mkItem (id it) tempName (price it) (category it) (measureValue it)
                   (measureUnit it) (quantity it) :: l2)%list).
Proof.
  unfold handleNameBlur. split.
  - intros E. rewrite E, String.eqb_refl. reflexivity.
  - intros E. apply String.eqb_neq in E. rewrite E. cbn [negb].
    destruct (split_unique_id items it Hids Hin) as (l1 & l2 & -> & H1 & H2).
    exists l1, l2. split; [reflexivity|]. rewrite handleUpdateItem_at by assumption.
    reflexivity.
Qed.

Lemma handleNameBlur_spec_witness :
  NoDup (map id [riceA; milk]) /\ In milk [riceA; milk] /\
  (trim "Leite " = productName milk -> handleNameBlur milk "Leite " [riceA; milk] = [riceA; milk]) /\
  (trim "Leite " <> productName milk ->
   exists l1 l2, [riceA; milk] = (l1 ++ milk :: l2)%list /\
     handleNameBlur milk "Leite " [riceA; milk] =
     (l1 ++ mkItem (id milk) "Leite " (price milk) (category milk) (measureValue milk)
                   (measureUnit milk) (quantity milk) :: l2)%list).
Proof.
  assert (Hd : NoDup (map id [riceA; milk])) by (repeat constructor; simpl; intuition discriminate).
  assert (Hi : In milk [riceA; milk]) by (right; left; reflexivity).
  split; [exact Hd|]. split; [exact Hi|].
  apply (handleNameBlur_spec [riceA; milk] milk "Leite " Hd Hi).
Defined.

(** [extractShoppingList] rejects with an [Error] only with one of its
    two messages: ["API Key faltando"] for a missing key, otherwise
    ["Falha ao ler a lista de compras."]; a failure of the [FileReader]
    happens before the [try] and rejects with the reader's error event
    instead, exactly when the key is present and the file cannot be read. *)
Theorem extractShoppingList_errors (File : Type) (fileType : File -> string)
  (readAsDataURL : File -> option string)
  (generateContent : Request -> string -> option string -> Outcome (option string))
  (parseNames : string -> Outcome (list string)) (apiKey : string) (f : File) :
  (forall m, extractShoppingList File fileType readAsDataURL generateContent parseNames apiKey f = Thrown m ->
     (apiKey = "" /\ m = msgListNoKey) \/ (apiKey <> "" /\ m = msgListFailed)) /\
  (extractShoppingList File fileType readAsDataURL generateContent parseNames apiKey f = ReaderError <->
     apiKey <> "" /\ readAsDataURL f = None).
Proof.
  unfold extractShoppingList, fileToBase64. split.
  - intros m H. destruct (String.eqb apiKey "") eqn:Ek.
    + apply String.eqb_eq in Ek. injection H as <-. left. auto.
    + apply String.eqb_neq in Ek. destruct (readAsDataURL f); [|discriminate].
      destruct (extractTry _ _ _ _ _ _); try discriminate; injection H as <-; right; auto.
  - destruct (String.eqb apiKey "") eqn:Ek; split.
    + discriminate.
    + intros [E _]. apply String.eqb_neq in E. congruence.
    + destruct (readAsDataURL f); [destruct (extractTry _ _ _ _ _ _); discriminate|].
      intros _. split; [apply String.eqb_neq, Ek|reflexivity].
    + intros [_ ->]. reflexivity.
Qed.

Lemma extractShoppingList_errors_witness :
  extractShoppingList unit (fun _ => "image/png") (fun _ => None)
    (fun _ _ _ => Ok None) (fun _ => Ok []) "key" tt = ReaderError.
Proof.
  apply (extractShoppingList_errors unit (fun _ => "image/png") (fun _ => None)
    (fun _ _ _ => Ok None) (fun _ => Ok []) "key" tt).
  split; [discriminate|reflexivity].
Defined.
